(** * Runtime configuration store and JWT authentication client

  A shallow embedding of [backend/app/core/runtime_config.py] and
  [backend/app/core/auth_client.py].

  Conventions of the embedding.
  - Python values that travel through the client (the parsed login
    response, the cached token) are values of [pyval]; [None] is [PyNone].
  - [time.time()] and JSON numbers are Python floats and ints.  A finite
    float is the rational it denotes ([Q]); the float addition of line 88
    rounds to the nearest double ([to_double]) and raises [OverflowError]
    for an int beyond the range of a double.  The subtraction and the
    comparison of line 58 are taken exactly; [expires_at - 60] is exact in
    doubles for an expiry of 0 and for expiries from 60 to 2^53.  Floats
    that are not finite are outside the model.
  - The module-level dict [_runtime_config] is a [gmap] from its string
    keys to optional strings; a subscript on a missing key raises
    [KeyError], which the getters therefore can return.
  - A method of [AuthClient] is a computation in the monad [M]: it reads
    and writes the instance ([self]), appends to the log of requests sent
    to the external API, and returns a value or raises.  A raised
    exception keeps every write made before it, as in Python.
  - Logging calls are observability only and are left out. *)

From stdpp Require Import base strings gmap list.
From Stdlib Require Import QArith Lqa.

#[local] Open Scope string_scope.

(** ** Python values and exceptions *)

Module Py.

#[warnings="-register-all"] Inductive pyval : Type :=
| PyNone
| PyBool (b : bool)
| PyNum (q : Q)
| PyStr (s : string)
| PyList (l : list pyval)
| PyDict (d : gmap string pyval).

(** Truth value testing, as used by [if not x]. *)
Definition truthy (v : pyval) : bool :=
  match v with
  | PyNone => false
  | PyBool b => b
  | PyNum q => negb (Qeq_bool q 0)
  | PyStr s => negb (bool_decide (s = EmptyString))
  | PyList l => negb (bool_decide (l = []))
  | PyDict d => negb (bool_decide (d = ∅))
  end.

(** The exceptions that can leave the two modules. *)
Inductive exn : Type :=
| KeyError (key : string)
    (* subscript of a dict on a missing key *)
| TransportError
    (* raised by [client.post]: connection refused, timeout, DNS failure *)
| HTTPStatusError (status_code : Z) (text : string)
    (* raised by [response.raise_for_status()]; carries the response *)
| JSONDecodeError
    (* raised by [response.json()] on a body that is not JSON *)
| AttributeError
    (* [token_data.get] on a JSON value that is not an object *)
| ValueError (msg : string)
    (* [raise ValueError("No access_token in response")] *)
| TypeError
    (* [time.time() + expires_in] on a value that is not a number *)
| OverflowError.
    (* [time.time() + expires_in] on an int too large for a float *)

(** [d.get(k)] and [d.get(k, default)] on a parsed JSON value. *)
Definition dict_get (v : pyval) (k : string) (default : pyval) : exn + pyval :=
  match v with
  | PyDict d => inr (match d !! k with Some x => x | None => default end)
  | _ => inl AttributeError
  end.

(** The quotient [n / d] rounded to the nearest integer, ties to even
    ([n >= 0], [d > 0]). *)
Definition round_half_even (n d : Z) : Z :=
  let q := (n / d)%Z in
  match (2 * (n mod d) ?= d)%Z with
  | Lt => q
  | Gt => (q + 1)%Z
  | Eq => if Z.even q then q else (q + 1)%Z
  end.

(** The nearest IEEE 754 binary64 value of a rational, ties to even, as
    the conversion of an int to a float and the float operations compute
    it; [None] when the result is beyond the range of a double.  With
    [k = floor (log2 |x|)], the value is a multiple [m * 2^e] of the unit
    in the last place, [e = max (k - 52) (-1074)]. *)
Definition to_double (x : Q) : option Q :=
  let n := Z.abs (Qnum x) in
  let d := Zpos (Qden x) in
  if (n =? 0)%Z then Some 0%Q
  else
    let k0 := (Z.log2 n - Z.log2 d)%Z in
    let k := if (0 <=? k0)%Z
             then (if (d * 2 ^ k0 <=? n)%Z then k0 else k0 - 1)%Z
             else (if (d <=? n * 2 ^ (- k0))%Z then k0 else k0 - 1)%Z in
    let e := Z.max (k - 52) (-1074) in
    let m := if (0 <=? e)%Z then round_half_even n (d * 2 ^ e)
             else round_half_even (n * 2 ^ (- e)) d in
    if (0 <=? e)%Z && (2 ^ 1024 <=? m * 2 ^ e)%Z then None
    else
      let s := if (Qnum x <? 0)%Z then (- m)%Z else m in
      Some (Qred (if (0 <=? e)%Z then (s * 2 ^ e) # 1
                  else s # Z.to_pos (2 ^ (- e)))).

(** [t + q] for a float [t] and a number [q], an int or a finite float:
    [q] is converted to a double, which raises [OverflowError] for an int
    beyond the range, and the sum is rounded to a double.  A sum beyond
    the range is [inf] in Python, which a rational time cannot hold; it
    needs a clock of magnitude 2^970 at least, and is treated here like
    the overflow of the conversion. *)
Definition float_plus (t q : Q) : exn + Q :=
  match to_double q with
  | None => inl OverflowError
  | Some x =>
      match to_double (t + x) with
      | None => inl OverflowError
      | Some s => inr s
      end
  end.

(** [t + x] for a float [t] (line 88): defined on numbers and on booleans
    (which are the integers 0 and 1), a [TypeError] otherwise. *)
Definition float_add (t : Q) (x : pyval) : exn + Q :=
  match x with
  | PyNum q => float_plus t q
  | PyBool b => float_plus t (if b then 1 else 0)
  | _ => inl TypeError
  end.

(** [x < y] on floats. *)
Definition Qltb (x y : Q) : bool := negb (Qle_bool y x).

End Py.
Import Py.

(** ** [app.core.config.settings]

  The settings object is not part of the two modules; the four attributes
  they read are taken as parameters. *)
Record Settings : Type := {
  EXTERNAL_API_BASE_URL : string;
  EXTERNAL_API_USERNAME : string;
  EXTERNAL_API_PASSWORD : string;
  EXTERNAL_API_LOGIN_PATH : string;
}.

(** ** runtime_config.py *)

Module RuntimeConfig.

Abbreviation store := (gmap string (option string)).

(** The initial module-level dict: every slot holds [None]. *)
Definition _runtime_config : store :=
  <["external_api_base_url" := None]>
  (<["external_api_username" := None]>
  (<["external_api_password" := None]> ∅)).

Section Accessors.
Variable settings : Settings.

Definition get_external_api_base_url (cfg : store) : exn + string :=
  match cfg !! "external_api_base_url" with
  | None => inl (KeyError "external_api_base_url")
  | Some (Some url) => inr url
  | Some None => inr (EXTERNAL_API_BASE_URL settings)
  end.

Definition get_external_api_username (cfg : store) : exn + string :=
  match cfg !! "external_api_username" with
  | None => inl (KeyError "external_api_username")
  | Some (Some username) => inr username
  | Some None => inr (EXTERNAL_API_USERNAME settings)
  end.

Definition get_external_api_password (cfg : store) : exn + string :=
  match cfg !! "external_api_password" with
  | None => inl (KeyError "external_api_password")
  | Some (Some password) => inr password
  | Some None => inr (EXTERNAL_API_PASSWORD settings)
  end.
End Accessors.

Definition set_external_api_base_url (url : string) (cfg : store) : store :=
  <["external_api_base_url" := Some url]> cfg.

Definition reset_external_api_base_url (cfg : store) : store :=
  <["external_api_base_url" := None]> cfg.

Definition set_external_api_username (username : string) (cfg : store) : store :=
  <["external_api_username" := Some username]> cfg.

Definition set_external_api_password (password : string) (cfg : store) : store :=
  <["external_api_password" := Some password]> cfg.

(** The stores the program can be in: the initial dict, changed by any
    sequence of calls of the four mutators. *)
Inductive reachable : store → Prop :=
| reach_init : reachable _runtime_config
| reach_set_base_url url cfg :
    reachable cfg → reachable (set_external_api_base_url url cfg)
| reach_reset_base_url cfg :
    reachable cfg → reachable (reset_external_api_base_url cfg)
| reach_set_username username cfg :
    reachable cfg → reachable (set_external_api_username username cfg)
| reach_set_password password cfg :
    reachable cfg → reachable (set_external_api_password password cfg).

(** The three configurable values, for statements that range over them;
    [get_value] and [set_value] dispatch to the functions above. *)
Inductive key : Type := BaseUrl | Username | Password.

Definition slot (k : key) : string :=
  match k with
  | BaseUrl => "external_api_base_url"
  | Username => "external_api_username"
  | Password => "external_api_password"
  end.

Definition default_of (settings : Settings) (k : key) : string :=
  match k with
  | BaseUrl => EXTERNAL_API_BASE_URL settings
  | Username => EXTERNAL_API_USERNAME settings
  | Password => EXTERNAL_API_PASSWORD settings
  end.

Definition get_value (settings : Settings) (k : key) (cfg : store) : exn + string :=
  match k with
  | BaseUrl => get_external_api_base_url settings cfg
  | Username => get_external_api_username settings cfg
  | Password => get_external_api_password settings cfg
  end.

Definition set_value (k : key) (v : string) (cfg : store) : store :=
  match k with
  | BaseUrl => set_external_api_base_url v cfg
  | Username => set_external_api_username v cfg
  | Password => set_external_api_password v cfg
  end.

End RuntimeConfig.
Import RuntimeConfig.

(** ** auth_client.py *)

Module Auth.

(** The instance attributes of [AuthClient]. *)
Record AuthClient : Type := {
  _token : pyval;
  _token_expires_at : Q;
  _last_base_url : option string;
  _last_username : option string;
  _last_password : option string;
}.

(** [AuthClient.__init__]: the attributes of a new instance. *)
Definition __init__ : AuthClient :=
  {| _token := PyNone; _token_expires_at := 0;
     _last_base_url := None; _last_username := None; _last_password := None |}.

(** Attribute assignments [self.x = v]. *)
Definition set_token (v : pyval) (c : AuthClient) : AuthClient :=
  {| _token := v; _token_expires_at := _token_expires_at c;
     _last_base_url := _last_base_url c; _last_username := _last_username c;
     _last_password := _last_password c |}.

Definition set_token_expires_at (t : Q) (c : AuthClient) : AuthClient :=
  {| _token := _token c; _token_expires_at := t;
     _last_base_url := _last_base_url c; _last_username := _last_username c;
     _last_password := _last_password c |}.

Definition set_last_base_url (v : option string) (c : AuthClient) : AuthClient :=
  {| _token := _token c; _token_expires_at := _token_expires_at c;
     _last_base_url := v; _last_username := _last_username c;
     _last_password := _last_password c |}.

Definition set_last_username (v : option string) (c : AuthClient) : AuthClient :=
  {| _token := _token c; _token_expires_at := _token_expires_at c;
     _last_base_url := _last_base_url c; _last_username := v;
     _last_password := _last_password c |}.

Definition set_last_password (v : option string) (c : AuthClient) : AuthClient :=
  {| _token := _token c; _token_expires_at := _token_expires_at c;
     _last_base_url := _last_base_url c; _last_username := _last_username c;
     _last_password := v |}.

(** The login request: [POST url] with the JSON body
    [{"user_name": ..., "password": ...}] and the header
    [Content-Type: application/json]. *)
Record request : Type := {
  url : string;
  user_name : string;
  password : string;
}.

(** What [httpx] hands back: the status code, the raw body
    ([response.text]) and the value of [response.json()], [None] when the
    body does not decode. *)
Record response : Type := {
  status_code : Z;
  text : string;
  json : option pyval;
}.

Inductive reply : Type :=
| NoResponse                 (* [client.post] raised a transport error *)
| Responded (r : response).

(** Everything one call reads from outside the instance: the settings, the
    configuration store, what the external API answers to a request, and
    the two readings of [time.time()], at the validity check (line 58) and
    when the new token is stored (line 88). *)
Record Env : Type := {
  settings : Settings;
  config : store;
  clock_at_check : Q;
  external_api : request → reply;
  clock_at_store : Q;
}.

(** *** The monad of a method call *)

Record world : Type := {
  self : AuthClient;
  sent : list request;      (* the login requests sent so far, oldest first *)
}.

Definition M (A : Type) : Type := world → (exn + A) * world.

#[global] Instance M_ret : MRet M := λ A x w, (inr x, w).

#[global] Instance M_bind : MBind M := λ A B f m w,
  match m w with
  | (inr x, w') => f x w'
  | (inl e, w') => (inl e, w')
  end.

Definition raise {A : Type} (e : exn) : M A := λ w, (inl e, w).

(** A call of a function that returns or raises without touching [self]. *)
Definition lift {A : Type} (r : exn + A) : M A := λ w, (r, w).

Definition get_self : M AuthClient := λ w, (inr (self w), w).

Definition assign (f : AuthClient → AuthClient) : M unit :=
  λ w, (inr tt, {| self := f (self w); sent := sent w |}).

(** [httpx]'s [Response.raise_for_status]: an error for every status
    outside 2xx. *)
Definition is_success (r : response) : bool :=
  bool_decide (200 ≤ status_code r)%Z && bool_decide (status_code r ≤ 299)%Z.

Definition raise_for_status (r : response) : M unit :=
  if is_success r then mret tt
  else raise (HTTPStatusError (status_code r) (text r)).

(** [await client.post(login_url, json=..., headers=...)]: the request
    leaves, and the call waits for what comes back. *)
Definition send (req : request) : M unit :=
  λ w, (inr tt, {| self := self w; sent := sent w ++ [req] |}).

Definition receive (r : reply) : M response :=
  match r with
  | NoResponse => raise TransportError
  | Responded resp => mret resp
  end.

Definition client_post (env : Env) (req : request) : M response :=
  send req;; receive (external_api env req).

(** [response.json()] *)
Definition response_json (r : response) : M pyval :=
  match json r with
  | Some v => mret v
  | None => raise JSONDecodeError
  end.

(** *** The methods *)

(** [AuthClient._is_token_valid], lines 53-58: a method that reads the
    instance and the clock and writes nothing; [now] is what [time.time()]
    returns. *)
Definition _is_token_valid (now : Q) (self : AuthClient) : bool :=
  if negb (truthy (_token self)) then false
  else Qltb now (_token_expires_at self - 60).

(** Lines 78-93: the rest of the [try] block once the response is there.
    The two [except] clauses log and re-raise, so an exception leaves the
    block as it was raised.  [now] is what [time.time()] returns at
    line 88. *)
Definition store_token (now : Q) (base_url username password : string)
    (response : response) : M unit :=
  raise_for_status response;;
  token_data ← response_json response;
  access_token ← lift (dict_get token_data "access_token" PyNone);
  assign (set_token access_token);;
  self ← get_self;
  if negb (truthy (_token self))
  then raise (ValueError "No access_token in response")
  else
    expires_in ← lift (dict_get token_data "expires_in" (PyNum 3600));
    expires_at ← lift (float_add now expires_in);
    assign (set_token_expires_at expires_at);;
    assign (set_last_base_url (Some base_url));;
    assign (set_last_username (Some username));;
    assign (set_last_password (Some password)).

(** [AuthClient._fetch_new_token], lines 60-110. *)
Definition _fetch_new_token (env : Env) : M unit :=
  base_url ← lift (get_external_api_base_url (settings env) (config env));
  username ← lift (get_external_api_username (settings env) (config env));
  password ← lift (get_external_api_password (settings env) (config env));
  let login_url := base_url +:+ EXTERNAL_API_LOGIN_PATH (settings env) in
  response ← client_post env
    {| url := login_url; user_name := username; password := password |};
  store_token (clock_at_store env) base_url username password response.

(** [x is not None and x != current] *)
Definition differs (last : option string) (current : string) : bool :=
  match last with
  | Some v => bool_decide (v ≠ current)
  | None => false
  end.

(** [AuthClient.get_access_token], lines 30-51. *)
Definition get_access_token (env : Env) : M pyval :=
  current_base_url ← lift (get_external_api_base_url (settings env) (config env));
  current_username ← lift (get_external_api_username (settings env) (config env));
  current_password ← lift (get_external_api_password (settings env) (config env));
  self ← get_self;
  let credentials_changed :=
    differs (_last_base_url self) current_base_url
    || differs (_last_username self) current_username
    || differs (_last_password self) current_password in
  (if credentials_changed
   then assign (set_token PyNone);; assign (set_token_expires_at 0)
   else mret tt : M unit);;
  self ← get_self;
  if _is_token_valid (clock_at_check env) self then
    self ← get_self; mret (_token self)
  else
    _fetch_new_token env;;
    self ← get_self; mret (_token self).

(** The [httpx.AsyncClient] that [get_authorized_client] builds. *)
Record AsyncClient : Type := {
  headers : list (string * string);
  timeout : Q;
}.

(** The formatting of [{token}] in an f-string: a [str] is inserted as it
    is; for every other value Python inserts [str(token)], which is taken
    as the parameter [str_other]. *)
Definition format (str_other : pyval → string) (v : pyval) : string :=
  match v with
  | PyStr s => s
  | _ => str_other v
  end.

(** [AuthClient.get_authorized_client], lines 112-118. *)
Definition get_authorized_client (str_other : pyval → string) (env : Env)
    : M AsyncClient :=
  token ← get_access_token env;
  mret {| headers := [("Authorization", "Bearer " +:+ format str_other token)];
          timeout := 30 |}.

(** The global instance, [auth_client = AuthClient()]. *)
Definition auth_client : AuthClient := __init__.

End Auth.
Import Auth.

(** ** Concurrent callers

    [get_access_token] is a coroutine; on one event loop a call runs
    without interruption until it suspends.  It suspends in
    [await client.post] (line 70), and leaving the [async with] block
    (line 67) is awaited too, so the read of [self._token] at line 51 is a
    step of its own.  The instance holds no lock.  The shared instance and
    the calls in flight form a transition system whose steps are those
    uninterrupted stretches of code. *)

Module Async.

Inductive task : Type :=
| Ready
    (* the call has not started *)
| Posting (base_url username password : string)
    (* suspended in [await client.post], with the locals of
       [_fetch_new_token] *)
| Leaving
    (* the token is stored; suspended while the [async with] block closes *)
| Returned (v : pyval)
| Raised (e : exn).

Record system : Type := {
  mem : world;             (* the shared instance and the requests sent *)
  tasks : list task;
}.

Inductive event : Type :=
| Start (i : nat) (now : Q)
    (* call [i] runs from line 32 until it returns a cached token or
       suspends in [client.post]; [now] is the clock at line 58 *)
| Respond (i : nat) (r : reply) (now : Q)
    (* the external API answers call [i], which runs lines 78-93; [now]
       is the clock at line 88 *)
| Resume (i : nat).
    (* call [i] leaves [_fetch_new_token] and returns [self._token] *)

(** Lines 32-47 and, when the cache does not serve, 62-77. *)
Definition start (settings : Settings) (cfg : store) (now : Q) : M task :=
  current_base_url ← lift (get_external_api_base_url settings cfg);
  current_username ← lift (get_external_api_username settings cfg);
  current_password ← lift (get_external_api_password settings cfg);
  self ← get_self;
  let credentials_changed :=
    differs (_last_base_url self) current_base_url
    || differs (_last_username self) current_username
    || differs (_last_password self) current_password in
  (if credentials_changed
   then assign (set_token PyNone);; assign (set_token_expires_at 0)
   else mret tt : M unit);;
  self ← get_self;
  if _is_token_valid now self then
    self ← get_self; mret (Returned (_token self))
  else
    base_url ← lift (get_external_api_base_url settings cfg);
    username ← lift (get_external_api_username settings cfg);
    password ← lift (get_external_api_password settings cfg);
    let login_url := base_url +:+ EXTERNAL_API_LOGIN_PATH settings in
    send {| url := login_url; user_name := username; password := password |};;
    mret (Posting base_url username password).

(** Lines 70-93 from the moment the answer is there. *)
Definition respond (now : Q) (base_url username password : string) (r : reply)
    : M task :=
  response ← receive r;
  store_token now base_url username password response;;
  mret Leaving.

Definition finished {A : Type} (f : A → task) (r : exn + A) : task :=
  match r with
  | inr x => f x
  | inl e => Raised e
  end.

(** One step of the system; [None] when the event is not enabled. *)
Definition step (settings : Settings) (cfg : store) (ev : event) (sys : system)
    : option system :=
  match ev with
  | Start i now =>
      match tasks sys !! i with
      | Some Ready =>
          let (res, w') := start settings cfg now (mem sys) in
          Some {| mem := w'; tasks := <[i := finished id res]> (tasks sys) |}
      | _ => None
      end
  | Respond i r now =>
      match tasks sys !! i with
      | Some (Posting base_url username password) =>
          let (res, w') := respond now base_url username password r (mem sys) in
          Some {| mem := w'; tasks := <[i := finished id res]> (tasks sys) |}
      | _ => None
      end
  | Resume i =>
      match tasks sys !! i with
      | Some Leaving =>
          Some {| mem := mem sys;
                  tasks := <[i := Returned (_token (self (mem sys)))]> (tasks sys) |}
      | _ => None
      end
  end.

Fixpoint run_schedule (settings : Settings) (cfg : store) (evs : list event)
    (sys : system) : option system :=
  match evs with
  | [] => Some sys
  | ev :: evs' =>
      match step settings cfg ev sys with
      | Some sys' => run_schedule settings cfg evs' sys'
      | None => None
      end
  end.

(** [n] callers about to call [get_access_token] on a fresh instance. *)
Definition callers (n : nat) : system :=
  {| mem := {| self := auth_client; sent := [] |}; tasks := replicate n Ready |}.

End Async.
Import Async.

(** ** Calls one after the other *)

(** A sequence of calls of [get_access_token] on the same instance, each
    finished before the next starts; the results are listed in order. *)
Fixpoint call_each (envs : list Env) (w : world) : list (exn + pyval) * world :=
  match envs with
  | [] => ([], w)
  | env :: envs' =>
      let (r, w') := get_access_token env w in
      let (rs, w'') := call_each envs' w' in
      (r :: rs, w'')
  end.

(** ** Vocabulary of the statements *)

(** The credential triple in effect: what the three getters return. *)
Definition read_credentials (settings : Settings) (cfg : store)
    : exn + (string * string * string) :=
  match get_external_api_base_url settings cfg,
        get_external_api_username settings cfg,
        get_external_api_password settings cfg with
  | inr b, inr u, inr p => inr (b, u, p)
  | inl e, _, _ | _, inl e, _ | _, _, inl e => inl e
  end.

(** The triple remembered with the cached token, once the three
    attributes are set. *)
Definition issued_for (c : AuthClient) : option (string * string * string) :=
  match _last_base_url c, _last_username c, _last_password c with
  | Some b, Some u, Some p => Some (b, u, p)
  | _, _, _ => None
  end.

(** The instance after lines 36-45, for the current triple [(b, u, p)]. *)
Definition invalidated (b u p : string) (c : AuthClient) : AuthClient :=
  if differs (_last_base_url c) b
     || differs (_last_username c) u
     || differs (_last_password c) p
  then set_token_expires_at 0 (set_token PyNone c)
  else c.

(** The request that [_fetch_new_token] sends for a triple. *)
Definition login_request (settings : Settings) (b u p : string) : request :=
  {| url := b +:+ EXTERNAL_API_LOGIN_PATH settings; user_name := u; password := p |}.

(** A login response as the external API documents it: a success status
    and a JSON object whose [access_token] is [tok] and whose [expires_in]
    is [expires_in], when there is one. *)
Definition token_response (r : response) (tok : pyval) (expires_in : option pyval)
    : Prop :=
  is_success r = true ∧
  ∃ d, json r = Some (PyDict d) ∧
       d !! "access_token" = Some tok ∧
       d !! "expires_in" = expires_in.

(** The instance right after a login that succeeded with token [tok],
    expiry [t] and the triple [(b, u, p)]. *)
Definition stored (tok : pyval) (t : Q) (b u p : string) : AuthClient :=
  {| _token := tok; _token_expires_at := t;
     _last_base_url := Some b; _last_username := Some u;
     _last_password := Some p |}.

(** The triple [t] with the value of key [k] replaced by [v]. *)
Definition with_value (k : key) (v : string) (t : string * string * string)
    : string * string * string :=
  let '(b, u, p) := t in
  match k with
  | BaseUrl => (v, u, p)
  | Username => (b, v, p)
  | Password => (b, u, v)
  end.

(** The ways a login exchange can end, as a relation between the answer of
    the external API, the result of the call and the instance it leaves;
    [c0] is the instance when the request is sent and [now] the clock at
    line 88.  [refresh_outcome] below shows that the code follows it. *)
Inductive login_outcome (now : Q) (b u p : string) (c0 : AuthClient)
    : reply → exn + pyval → AuthClient → Prop :=
| login_no_response :
    login_outcome now b u p c0 NoResponse (inl TransportError) c0
| login_rejected resp :
    is_success resp = false →
    login_outcome now b u p c0 (Responded resp)
      (inl (HTTPStatusError (status_code resp) (text resp))) c0
| login_not_json resp :
    is_success resp = true → json resp = None →
    login_outcome now b u p c0 (Responded resp) (inl JSONDecodeError) c0
| login_not_object resp v :
    is_success resp = true → json resp = Some v → (∀ d, v ≠ PyDict d) →
    login_outcome now b u p c0 (Responded resp) (inl AttributeError) c0
| login_no_token resp d tok :
    is_success resp = true → json resp = Some (PyDict d) →
    default PyNone (d !! "access_token") = tok → truthy tok = false →
    login_outcome now b u p c0 (Responded resp)
      (inl (ValueError "No access_token in response")) (set_token tok c0)
| login_bad_expiry resp d tok e :
    is_success resp = true → json resp = Some (PyDict d) →
    d !! "access_token" = Some tok → truthy tok = true →
    float_add now (default (PyNum 3600) (d !! "expires_in")) = inl e →
    login_outcome now b u p c0 (Responded resp) (inl e) (set_token tok c0)
| login_ok resp d tok t :
    is_success resp = true → json resp = Some (PyDict d) →
    d !! "access_token" = Some tok → truthy tok = true →
    float_add now (default (PyNum 3600) (d !! "expires_in")) = inr t →
    login_outcome now b u p c0 (Responded resp) (inr tok) (stored tok t b u p).

(** ** Sample data for the concrete runs *)

Definition sample_settings : Settings :=
  {| EXTERNAL_API_BASE_URL := "http://api.example";
     EXTERNAL_API_USERNAME := "admin";
     EXTERNAL_API_PASSWORD := "secret";
     EXTERNAL_API_LOGIN_PATH := "/api/auth/login" |}.

(** A 200 response whose body is the given JSON object. *)
Definition ok_response (body : gmap string pyval) : response :=
  {| status_code := 200; text := "{...}"; json := Some (PyDict body) |}.

(** [{"access_token": tok}] and [{"access_token": tok, "expires_in": n}] *)
Definition token_only (tok : string) : gmap string pyval :=
  {[ "access_token" := PyStr tok ]}.

Definition token_and_expiry (tok : string) (n : Q) : gmap string pyval :=
  <["expires_in" := PyNum n]> (token_only tok).

(** A call at clock [now] against an API that gives [r] to every request;
    the clock has not moved when the token is stored. *)
Definition sample_env (cfg : store) (now : Q) (r : reply) : Env :=
  {| settings := sample_settings; config := cfg; clock_at_check := now;
     external_api := λ _, r; clock_at_store := now |}.

(** The global instance before any call. *)
Definition fresh : world := {| self := auth_client; sent := [] |}.

(** A stand-in for [str] on values that are not strings. *)
Definition sample_str (v : pyval) : string := "<object>".

(** The world after a first login at time 1000 that was answered with
    [{"access_token": "tok-1", "expires_in": 3600}]. *)
Definition logged_in : world :=
  snd (get_access_token
         (sample_env _runtime_config 1000
            (Responded (ok_response (token_and_expiry "tok-1" 3600))))
         fresh).

(** The same, answered with [{"access_token": "tok-1"}]. *)
Definition logged_in_default : world :=
  snd (get_access_token
         (sample_env _runtime_config 1000
            (Responded (ok_response (token_only "tok-1"))))
         fresh).

(** Two callers whose calls overlap: both start at clock 1000 on a fresh
    instance, before either login is answered; the external API answers
    the first login with ["tok-A"] and the second with ["tok-B"]. *)
Definition overlapping_callers : list event :=
  [Start 0 1000; Start 1 1000;
   Respond 0 (Responded (ok_response (token_only "tok-A"))) 1001; Resume 0;
   Respond 1 (Responded (ok_response (token_only "tok-B"))) 1001; Resume 1].

(** A clock at which the sum with 3600 is not a double:
    2^31 - 3570 + 3 * 2^-22, whose sum with 3600 lies halfway between two
    doubles. *)
Definition clock_before_2_31 : Q := (2147480078 + (3 # 4194304))%Q.



(** ** Python [str] methods used by the endpoints

    A [str] is the sequence of its code points; a Rocq string holds code
    points below 256, so the endpoints are modelled on such text. *)

Module Str.

(** [c.isspace()] on code points below 256: U+0009-U+000D, U+001C-U+001F,
    U+0020, U+0085 and U+00A0. *)
Definition isspace (c : Ascii.ascii) : bool :=
  let n := Ascii.N_of_ascii c in
  ((9 <=? n) && (n <=? 13) || (28 <=? n) && (n <=? 32)
   || (n =? 133) || (n =? 160))%N.

(** Removal of the leading, and of the trailing, characters that satisfy
    [P]. *)
Fixpoint lstrip_by (P : Ascii.ascii → bool) (s : string) : string :=
  match s with
  | EmptyString => EmptyString
  | String c s' => if P c then lstrip_by P s' else s
  end.

Fixpoint rstrip_by (P : Ascii.ascii → bool) (s : string) : string :=
  match s with
  | EmptyString => EmptyString
  | String c s' =>
      match rstrip_by P s' with
      | EmptyString => if P c then EmptyString else String c EmptyString
      | r => String c r
      end
  end.

(** [s.strip()] *)
Definition strip (s : string) : string :=
  rstrip_by isspace (lstrip_by isspace s).

(** [c in chars] *)
Fixpoint contains (chars : string) (c : Ascii.ascii) : bool :=
  match chars with
  | EmptyString => false
  | String c' chars' => Ascii.eqb c c' || contains chars' c
  end.

(** [s.rstrip(chars)] *)
Definition rstrip (chars : string) (s : string) : string :=
  rstrip_by (contains chars) s.

(** [s.startswith(p)], and [s.startswith(prefixes)] for a tuple of
    prefixes. *)
Fixpoint has_prefix (p s : string) : bool :=
  match p, s with
  | EmptyString, _ => true
  | String a p', String b s' => Ascii.eqb a b && has_prefix p' s'
  | String _ _, EmptyString => false
  end.

Definition startswith (s : string) (prefixes : list string) : bool :=
  existsb (λ p, has_prefix p s) prefixes.

(** Whether every character of [s] satisfies [P]. *)
Fixpoint all_chars (P : Ascii.ascii → bool) (s : string) : bool :=
  match s with
  | EmptyString => true
  | String c s' => P c && all_chars P s'
  end.

End Str.
Import Str.

(** ** api/endpoints/config.py

    An endpoint is a function of the request body and the configuration
    store; it returns the response model, or raises, and the store it
    leaves.  The request and response models are records; each lives in a
    module of its own because their fields share names. *)

(** The further attributes of [settings] that [get_settings_config] reads;
    they are parameters like the ones above. *)
Record DisplaySettings : Type := {
  SYNC_CRON_EXPRESSION : string;
  RAGAS_LLM_MODEL : string;
  RAGAS_EMBEDDING_MODEL : string;
  EVALUATION_CRON_EXPRESSION : string;
  EVALUATION_BATCH_SIZE : Z;
}.

Module SyncConfigResponse.
Record t : Type := {
  external_api_base_url : string;
  external_api_username : string;
  sync_cron_expression : string;
}.
End SyncConfigResponse.

Module EvaluationConfigResponse.
Record t : Type := {
  ragas_llm_model : string;
  ragas_embedding_model : string;
  evaluation_cron_expression : string;
  evaluation_batch_size : Z;
}.
End EvaluationConfigResponse.

Module SettingsConfigResponse.
Record t : Type := {
  sync : SyncConfigResponse.t;
  evaluation : EvaluationConfigResponse.t;
}.
End SettingsConfigResponse.

Module SetExternalApiBaseUrlRequest.
Record t : Type := { external_api_base_url : string }.
End SetExternalApiBaseUrlRequest.

Module SetExternalApiBaseUrlResponse.
Record t : Type := {
  success : bool;
  message : string;
  external_api_base_url : string;
}.
End SetExternalApiBaseUrlResponse.

Module SetExternalApiCredentialsRequest.
Record t : Type := { username : string; password : string }.
End SetExternalApiCredentialsRequest.

Module SetExternalApiCredentialsResponse.
Record t : Type := {
  success : bool;
  message : string;
  username : string;
}.
End SetExternalApiCredentialsResponse.

Module Endpoints.

(** [GET /config], lines 73-93. *)
Definition get_settings_config (settings : Settings) (display : DisplaySettings)
    (cfg : store) : exn + SettingsConfigResponse.t :=
  match get_external_api_base_url settings cfg with
  | inl e => inl e
  | inr base_url =>
      match get_external_api_username settings cfg with
      | inl e => inl e
      | inr username =>
          inr {| SettingsConfigResponse.sync :=
                   {| SyncConfigResponse.external_api_base_url := base_url;
                      SyncConfigResponse.external_api_username := username;
                      SyncConfigResponse.sync_cron_expression :=
                        SYNC_CRON_EXPRESSION display |};
                 SettingsConfigResponse.evaluation :=
                   {| EvaluationConfigResponse.ragas_llm_model :=
                        RAGAS_LLM_MODEL display;
                      EvaluationConfigResponse.ragas_embedding_model :=
                        RAGAS_EMBEDDING_MODEL display;
                      EvaluationConfigResponse.evaluation_cron_expression :=
                        EVALUATION_CRON_EXPRESSION display;
                      EvaluationConfigResponse.evaluation_batch_size :=
                        EVALUATION_BATCH_SIZE display |} |}
      end
  end.

(** The response of a rejected base URL: the message and the URL in
    effect, read with the getter (which can raise). *)
Definition base_url_rejected (settings : Settings) (cfg : store) (msg : string)
    : (exn + SetExternalApiBaseUrlResponse.t) * store :=
  match get_external_api_base_url settings cfg with
  | inl e => (inl e, cfg)
  | inr current =>
      (inr {| SetExternalApiBaseUrlResponse.success := false;
              SetExternalApiBaseUrlResponse.message := msg;
              SetExternalApiBaseUrlResponse.external_api_base_url := current |},
       cfg)
  end.

(** [POST /external-api-base-url], lines 96-131. *)
Definition set_external_api_base_url (settings : Settings)
    (request : SetExternalApiBaseUrlRequest.t) (cfg : store)
    : (exn + SetExternalApiBaseUrlResponse.t) * store :=
  let url := strip (SetExternalApiBaseUrlRequest.external_api_base_url request) in
  if bool_decide (url = EmptyString) then
    base_url_rejected settings cfg "URL cannot be empty"
  else if negb (startswith url ["http://"; "https://"]) then
    base_url_rejected settings cfg "URL must start with http:// or https://"
  else
    let url := rstrip "/" url in
    let cfg := RuntimeConfig.set_external_api_base_url url cfg in
    (inr {| SetExternalApiBaseUrlResponse.success := true;
            SetExternalApiBaseUrlResponse.message :=
              "External API base URL updated successfully. This change is temporary and will be reset on server restart.";
            SetExternalApiBaseUrlResponse.external_api_base_url := url |},
     cfg).

(** The response of rejected credentials. *)
Definition credentials_rejected (settings : Settings) (cfg : store) (msg : string)
    : (exn + SetExternalApiCredentialsResponse.t) * store :=
  match get_external_api_username settings cfg with
  | inl e => (inl e, cfg)
  | inr current =>
      (inr {| SetExternalApiCredentialsResponse.success := false;
              SetExternalApiCredentialsResponse.message := msg;
              SetExternalApiCredentialsResponse.username := current |},
       cfg)
  end.

(** [POST /external-api-credentials], lines 134-168. *)
Definition set_external_api_credentials (settings : Settings)
    (request : SetExternalApiCredentialsRequest.t) (cfg : store)
    : (exn + SetExternalApiCredentialsResponse.t) * store :=
  let username := strip (SetExternalApiCredentialsRequest.username request) in
  let password := SetExternalApiCredentialsRequest.password request in
  if bool_decide (username = EmptyString) then
    credentials_rejected settings cfg "Username cannot be empty"
  else if bool_decide (password = EmptyString) then
    credentials_rejected settings cfg "password cannot be empty"
  else
    let cfg := set_external_api_username username cfg in
    let cfg := set_external_api_password password cfg in
    (inr {| SetExternalApiCredentialsResponse.success := true;
            SetExternalApiCredentialsResponse.message :=
              "External API credentials updated successfully. This change is temporary and will be reset on server restart.";
            SetExternalApiCredentialsResponse.username := username |},
     cfg).

End Endpoints.

(** ** The history of a session *)

(** The exchanges of a sequence of calls on one instance: every request
    the calls add to the log, with what the external API answered to it. *)
Fixpoint exchanges (envs : list Env) (w : world) : list (request * reply) :=
  match envs with
  | [] => []
  | env :: envs' =>
      let (r, w') := get_access_token env w in
      map (λ req, (req, external_api env req)) (drop (length (sent w)) (sent w'))
      ++ exchanges envs' w'
  end.

(** What a session keeps true of its instance, given the exchanges [h] so
    far: the expiry is 0 until a triple is remembered, and a cached token
    either has the expiry 0 or is the [access_token] of an answer to a
    login request for the remembered triple. *)
Definition session_inv (st : Settings) (c : AuthClient)
    (h : list (request * reply)) : Prop :=
  (issued_for c = None → _token_expires_at c = 0%Q)
  ∧ (truthy (_token c) = true →
       _token_expires_at c = 0%Q
       ∨ ∃ b u p resp ei,
           issued_for c = Some (b, u, p)
           ∧ (login_request st b u p, Responded resp) ∈ h
           ∧ token_response resp (_token c) ei).

(** ** Sample data for the further runs *)

Definition sample_display : DisplaySettings :=
  {| SYNC_CRON_EXPRESSION := "0 * * * *";
     RAGAS_LLM_MODEL := "llm";
     RAGAS_EMBEDDING_MODEL := "embedding";
     EVALUATION_CRON_EXPRESSION := "30 * * * *";
     EVALUATION_BATCH_SIZE := 10 |}.

(** A session of three calls: a login as [admin] at clock 1000; the
    username is set to [alice] and the call at 1010 logs in again; the
    call at 1020 is served from the cache. *)
Definition sample_session : list Env :=
  [sample_env _runtime_config 1000
     (Responded (ok_response (token_only "tok-1")));
   sample_env (set_external_api_username "alice" _runtime_config) 1010
     (Responded (ok_response (token_only "tok-2")));
   sample_env (set_external_api_username "alice" _runtime_config) 1020
     NoResponse].

(** * Properties *)

(** ** The configuration store *)

Section StoreFacts.
Context (settings : Settings).
Implicit Types (cfg : store) (k : key) (v : string).

Lemma get_value_lookup k cfg :
  get_value settings k cfg =
    match cfg !! slot k with
    | None => inl (KeyError (slot k))
    | Some (Some v) => inr v
    | Some None => inr (default_of settings k)
    end.
Proof. by destruct k. Qed.

Lemma set_value_insert k v cfg : set_value k v cfg = <[slot k := Some v]> cfg.
Proof. by destruct k. Qed.

Lemma slot_inj k k' : slot k = slot k' → k = k'.
Proof. by destruct k, k'. Qed.

(** Every mutator writes one existing slot, so the three keys stay. *)
Lemma reachable_slots cfg : reachable cfg → ∀ k, is_Some (cfg !! slot k).
Proof.
  induction 1 as [|url cfg _ IH|cfg _ IH|username cfg _ IH|password cfg _ IH];
    intros k.
  - destruct k; vm_compute; eauto.
  - unfold set_external_api_base_url. rewrite lookup_insert.
    case_decide; [eauto | apply IH].
  - unfold reset_external_api_base_url. rewrite lookup_insert.
    case_decide; [eauto | apply IH].
  - unfold set_external_api_username. rewrite lookup_insert.
    case_decide; [eauto | apply IH].
  - unfold set_external_api_password. rewrite lookup_insert.
    case_decide; [eauto | apply IH].
Qed.

Lemma reachable_get_value cfg k :
  reachable cfg → ∃ v, get_value settings k cfg = inr v.
Proof.
  intros Hr. rewrite get_value_lookup.
  destruct (reachable_slots cfg Hr k) as [[v|] ->]; eauto.
Qed.

Lemma reachable_set_value k v cfg : reachable cfg → reachable (set_value k v cfg).
Proof. destruct k; simpl; by constructor. Qed.

Lemma reachable_read_credentials cfg :
  reachable cfg → ∃ b u p, read_credentials settings cfg = inr (b, u, p).
Proof.
  intros Hr.
  destruct (reachable_get_value cfg BaseUrl Hr) as [b Hb].
  destruct (reachable_get_value cfg Username Hr) as [u Hu].
  destruct (reachable_get_value cfg Password Hr) as [p Hp].
  exists b, u, p. unfold read_credentials. simpl in Hb, Hu, Hp.
  by rewrite Hb, Hu, Hp.
Qed.

Lemma read_credentials_inv cfg b u p :
  read_credentials settings cfg = inr (b, u, p) →
  get_external_api_base_url settings cfg = inr b ∧
  get_external_api_username settings cfg = inr u ∧
  get_external_api_password settings cfg = inr p.
Proof.
  unfold read_credentials.
  destruct (get_external_api_base_url settings cfg),
    (get_external_api_username settings cfg),
    (get_external_api_password settings cfg); naive_solver.
Qed.

(** C7 - config store contract.  On every store the program can reach, for
    each of the three keys [k] and every string [v]: after [set(k, v)] a
    [get(k)] returns [v]; a [get] of each other key returns what it
    returned before the set; a [get] never fails; and when the slot of [k]
    holds no override, [get(k)] returns the compiled-in default. *)
Theorem config_store_contract cfg k v :
  reachable cfg →
  get_value settings k (set_value k v cfg) = inr v
  ∧ (∀ k', k' ≠ k →
       get_value settings k' (set_value k v cfg) = get_value settings k' cfg)
  ∧ (∃ x, get_value settings k cfg = inr x)
  ∧ (cfg !! slot k = Some None →
       get_value settings k cfg = inr (default_of settings k)).
Proof.
  intros Hr. repeat split.
  - by rewrite get_value_lookup, set_value_insert, lookup_insert_eq.
  - intros k' Hne. rewrite !get_value_lookup, set_value_insert.
    rewrite lookup_insert_ne; [done|]. intros Heq. by apply Hne, slot_inj.
  - by apply reachable_get_value.
  - intros Hnone. by rewrite get_value_lookup, Hnone.
Qed.

End StoreFacts.

Lemma config_store_contract_witness :
  reachable _runtime_config
  ∧ get_value sample_settings Username
      (set_value Username "alice" _runtime_config) = inr "alice"
  ∧ get_value sample_settings Password
      (set_value Username "alice" _runtime_config) = inr "secret"
  ∧ get_value sample_settings Username _runtime_config = inr "admin".
Proof.
  destruct (config_store_contract sample_settings _runtime_config Username
              "alice" reach_init) as (Hset & Hother & _ & Hdef).
  split; [constructor|]. split; [exact Hset|]. split.
  - rewrite (Hother Password); [reflexivity | discriminate].
  - apply Hdef. reflexivity.
Defined.

(** ** The authentication client *)

Lemma Qltb_lt (x y : Q) : Qltb x y = true ↔ (x < y)%Q.
Proof.
  unfold Qltb. rewrite negb_true_iff. split.
  - intros H. apply Qnot_le_lt. intros Hle%Qle_bool_iff. congruence.
  - intros H. destruct (Qle_bool y x) eqn:E; [|done].
    apply Qle_bool_iff in E. lra.
Qed.

Lemma Qltb_ge (x y : Q) : Qltb x y = false ↔ (y <= x)%Q.
Proof. unfold Qltb. rewrite negb_false_iff. apply Qle_bool_iff. Qed.

Ltac run_monad :=
  unfold mbind, M_bind, mret, M_ret, lift, assign, get_self, raise.

(** What lines 78-93 do, case by case. *)
Lemma store_token_eq now b u p r w :
  store_token now b u p r w =
    if is_success r then
      match json r with
      | None => (inl JSONDecodeError, w)
      | Some (PyDict d) =>
          let tok := default PyNone (d !! "access_token") in
          let w1 := {| self := set_token tok (self w); sent := sent w |} in
          if truthy tok then
            match float_add now (default (PyNum 3600) (d !! "expires_in")) with
            | inl e => (inl e, w1)
            | inr t => (inr tt, {| self := stored tok t b u p; sent := sent w |})
            end
          else (inl (ValueError "No access_token in response"), w1)
      | Some _ => (inl AttributeError, w)
      end
    else (inl (HTTPStatusError (status_code r) (text r)), w).
Proof.
  unfold store_token, raise_for_status, response_json, dict_get. run_monad.
  destruct (is_success r); [|done].
  destruct (json r) as [[| | | | |d]|]; try done.
  cbn. destruct (d !! "access_token") as [tok|]; cbn; [|done].
  destruct (truthy tok); cbn; [|done].
  by destruct (float_add _ _).
Qed.

(** What [get_access_token] does once the three getters have answered. *)
Lemma get_access_token_eq env w b u p :
  read_credentials (settings env) (config env) = inr (b, u, p) →
  get_access_token env w =
    let c0 := invalidated b u p (self w) in
    if _is_token_valid (clock_at_check env) c0
    then (inr (_token c0), {| self := c0; sent := sent w |})
    else
      let req := login_request (settings env) b u p in
      let w1 := {| self := c0; sent := sent w ++ [req] |} in
      match external_api env req with
      | NoResponse => (inl TransportError, w1)
      | Responded r =>
          match store_token (clock_at_store env) b u p r w1 with
          | (inr _, w') => (inr (_token (self w')), w')
          | (inl e, w') => (inl e, w')
          end
      end.
Proof.
  intros (Hb & Hu & Hp)%read_credentials_inv.
  unfold get_access_token, _fetch_new_token, client_post, send, receive.
  rewrite Hb, Hu, Hp. unfold invalidated, login_request. run_monad.
  destruct w as [c l]. cbn [self sent].
  destruct (differs _ b || differs _ u || differs _ p); cbn [self sent].
  - destruct (_is_token_valid _ _); [done|].
    destruct (external_api env _); [done|].
    by destruct (store_token _ _ _ _ _ _) as [[e|[]] w'].
  - destruct (_is_token_valid _ _); [done|].
    destruct (external_api env _); [done|].
    by destruct (store_token _ _ _ _ _ _) as [[e|[]] w'].
Qed.

Lemma differs_same v : differs (Some v) v = false.
Proof. unfold differs. by rewrite bool_decide_eq_false_2; [|intros []]. Qed.

Lemma issued_for_inv c b u p :
  issued_for c = Some (b, u, p) →
  _last_base_url c = Some b ∧ _last_username c = Some u ∧ _last_password c = Some p.
Proof.
  unfold issued_for.
  destruct (_last_base_url c), (_last_username c), (_last_password c);
    naive_solver.
Qed.

(** Unchanged credentials: lines 36-45 leave the instance alone. *)
Lemma invalidated_same c b u p :
  issued_for c = Some (b, u, p) → invalidated b u p c = c.
Proof.
  intros (Hb & Hu & Hp)%issued_for_inv. unfold invalidated.
  by rewrite Hb, Hu, Hp, !differs_same.
Qed.

(** Changed credentials: lines 36-45 drop the token. *)
Lemma invalidated_changed c b u p b0 u0 p0 :
  issued_for c = Some (b0, u0, p0) → (b0, u0, p0) ≠ (b, u, p) →
  invalidated b u p c = set_token_expires_at 0 (set_token PyNone c).
Proof.
  intros (Hb & Hu & Hp)%issued_for_inv Hne. unfold invalidated.
  rewrite Hb, Hu, Hp. unfold differs.
  destruct (decide (b0 = b)) as [->|]; [|by rewrite bool_decide_eq_true_2].
  destruct (decide (u0 = u)) as [->|];
    [|by rewrite (bool_decide_eq_true_2 (u0 ≠ u)), orb_true_r].
  destruct (decide (p0 = p)) as [->|]; [done|].
  by rewrite (bool_decide_eq_true_2 (p0 ≠ p)), orb_true_r.
Qed.

Lemma is_token_valid_true now c :
  _is_token_valid now c = true ↔
  truthy (_token c) = true ∧ (now < _token_expires_at c - 60)%Q.
Proof.
  unfold _is_token_valid. destruct (truthy (_token c)); cbn.
  - rewrite Qltb_lt. tauto.
  - intuition congruence.
Qed.

(** A call whose token passes the validity check after lines 36-45
    returns it without sending anything. *)
Lemma served_from_cache env w b u p :
  read_credentials (settings env) (config env) = inr (b, u, p) →
  _is_token_valid (clock_at_check env) (invalidated b u p (self w)) = true →
  get_access_token env w
    = (inr (_token (invalidated b u p (self w))),
       {| self := invalidated b u p (self w); sent := sent w |}).
Proof.
  intros Hcred Hvalid. rewrite (get_access_token_eq _ _ _ _ _ Hcred). cbn zeta.
  by rewrite Hvalid.
Qed.

(** C1 - cache hit.  When a cached token exists, the triple read from the
    config store is the one stored with it, and the clock is strictly
    before [expires_at - 60], [get_access_token] returns the cached token
    and leaves the instance and the request log as they were: no login
    exchange takes place. *)
Theorem cache_hit env w b u p :
  read_credentials (settings env) (config env) = inr (b, u, p) →
  truthy (_token (self w)) = true →
  issued_for (self w) = Some (b, u, p) →
  (clock_at_check env < _token_expires_at (self w) - 60)%Q →
  get_access_token env w = (inr (_token (self w)), w).
Proof.
  intros Hcred Htok Hfor Hlt.
  rewrite (served_from_cache env w b u p Hcred);
    rewrite (invalidated_same _ _ _ _ Hfor).
  - by destruct w.
  - by apply is_token_valid_true.
Qed.

(** The spec's scenario: login at T = 1000 with [expires_in = 3600], then
    a request at T + 10. *)
Lemma cache_hit_witness :
  get_access_token (sample_env _runtime_config 1010 NoResponse) logged_in
  = (inr (PyStr "tok-1"), logged_in).
Proof.
  apply (cache_hit (sample_env _runtime_config 1010 NoResponse) logged_in
           "http://api.example" "admin" "secret");
    [reflexivity | reflexivity | reflexivity | vm_compute; reflexivity].
Defined.

(** When the cache does not serve, the call sends exactly one request, the
    one for the triple just read, and ends as [login_outcome] says. *)
Lemma refresh_outcome env w b u p :
  read_credentials (settings env) (config env) = inr (b, u, p) →
  _is_token_valid (clock_at_check env) (invalidated b u p (self w)) = false →
  ∃ r c',
    get_access_token env w
      = (r, {| self := c';
               sent := sent w ++ [login_request (settings env) b u p] |})
    ∧ login_outcome (clock_at_store env) b u p (invalidated b u p (self w))
        (external_api env (login_request (settings env) b u p)) r c'.
Proof.
  intros Hcred Hinv. rewrite (get_access_token_eq _ _ _ _ _ Hcred). cbn zeta.
  rewrite Hinv.
  destruct (external_api env _) as [|resp]; [eauto using login_outcome|].
  rewrite store_token_eq. cbn [self sent].
  destruct (is_success resp) eqn:Hok; [|eauto using login_outcome].
  destruct (json resp) as [v|] eqn:Hjson; [|eauto using login_outcome].
  destruct v as [| | | | |d];
    try (do 2 eexists; split;
         [reflexivity | by eapply login_not_object]).
  cbn zeta.
  destruct (d !! "access_token") as [tok|] eqn:Htok; cbn [default from_option id].
  - destruct (truthy tok) eqn:Htruthy.
    + destruct (float_add _ _) as [e|t] eqn:Hadd.
      * do 2 eexists; split; [reflexivity|]. by eapply login_bad_expiry.
      * do 2 eexists; split; [reflexivity|]. by eapply login_ok.
    + do 2 eexists; split; [reflexivity|].
      eapply login_no_token; [done..|by rewrite Htok|done].
  - do 2 eexists; split; [reflexivity|].
    eapply login_no_token; [done..|by rewrite Htok|done].
Qed.

Lemma is_token_valid_no_token now c : _token c = PyNone → _is_token_valid now c = false.
Proof. unfold _is_token_valid. by intros ->. Qed.

(** A well-formed answer to a needed login: the token of the answer is
    stored with its expiry and the triple, and returned. *)
Lemma login_succeeds env w b u p resp tok ei t :
  read_credentials (settings env) (config env) = inr (b, u, p) →
  _is_token_valid (clock_at_check env) (invalidated b u p (self w)) = false →
  external_api env (login_request (settings env) b u p) = Responded resp →
  token_response resp tok ei →
  truthy tok = true →
  float_add (clock_at_store env) (default (PyNum 3600) ei) = inr t →
  get_access_token env w
    = (inr tok, {| self := stored tok t b u p;
                   sent := sent w ++ [login_request (settings env) b u p] |}).
Proof.
  intros Hcred Hinv Hapi (Hok & d & Hjson & Htok & Hei) Htruthy Hadd.
  destruct (refresh_outcome env w b u p Hcred Hinv) as (r & c' & -> & Hout).
  rewrite Hapi in Hout. subst ei.
  inversion Hout as [|? Hno|? ? Hnone|? v ? Hv Hobj|? d' ? ? Hd' Hdef Hfalse
                     |? d' ? ? ? Hd' Htok' ? Hadd'|? d' ? ? ? Hd' Htok' ? Hadd'];
    simplify_eq.
  - congruence.
  - by destruct (Hobj d).
  - rewrite Htok in Hfalse. cbn in Hfalse. congruence.
  - congruence.
  - congruence.
Qed.

(** A returned value that did not come from the cache is the
    [access_token] of the answer to this call's login. *)
Lemma login_outcome_returns now b u p c0 resp r c' tok :
  login_outcome now b u p c0 (Responded resp) r c' → r = inr tok →
  truthy tok = true ∧ ∃ ei, token_response resp tok ei.
Proof.
  intros Hout ->. inversion Hout; simplify_eq.
  split; [done|]. eexists. split; [done|]. eauto.
Qed.

Lemma read_credentials_set st cfg k v t :
  read_credentials st cfg = inr t →
  read_credentials st (set_value k v cfg) = inr (with_value k v t).
Proof.
  destruct t as [[b u] p]. intros (Hb & Hu & Hp)%read_credentials_inv.
  unfold read_credentials, get_external_api_base_url,
    get_external_api_username, get_external_api_password in *.
  destruct k; cbn; unfold set_external_api_base_url,
    set_external_api_username, set_external_api_password.
  - rewrite lookup_insert_eq, !lookup_insert_ne by done.
    destruct (cfg !! "external_api_username") as [[?|]|],
      (cfg !! "external_api_password") as [[?|]|]; by simplify_eq.
  - rewrite lookup_insert_eq, !lookup_insert_ne by done.
    destruct (cfg !! "external_api_base_url") as [[?|]|],
      (cfg !! "external_api_password") as [[?|]|]; by simplify_eq.
  - rewrite lookup_insert_eq, !lookup_insert_ne by done.
    destruct (cfg !! "external_api_base_url") as [[?|]|],
      (cfg !! "external_api_username") as [[?|]|]; by simplify_eq.
Qed.




(** C3 (amended) - default expiry and the boundary of the safety margin.
    A login at clock [T] whose answer has no [expires_in] stores as
    [expires_at] the float sum of [T] and 3600, that is [T + 3600] rounded
    to a double.  With unchanged credentials, that token is served from
    the cache, without a login, at every clock strictly before the stored
    [expires_at - 60]; at [expires_at - 60] and after, the call sends a
    new login request.  Where [T + 3600] is a double, as at [T = 1000],
    the boundary is [T + 3540], and a request at exactly [T + 3540]
    refreshes. *)
Theorem default_expiry env w b u p resp tok t :
  read_credentials (settings env) (config env) = inr (b, u, p) →
  _is_token_valid (clock_at_check env) (invalidated b u p (self w)) = false →
  external_api env (login_request (settings env) b u p) = Responded resp →
  token_response resp tok None →
  truthy tok = true →
  float_add (clock_at_store env) (PyNum 3600) = inr t →
  let w1 := {| self := stored tok t b u p;
               sent := sent w ++ [login_request (settings env) b u p] |} in
  get_access_token env w = (inr tok, w1)
  ∧ _token_expires_at (self w1) = t
  ∧ ∀ env',
      read_credentials (settings env') (config env') = inr (b, u, p) →
      ((clock_at_check env' < t - 60)%Q →
         get_access_token env' w1 = (inr tok, w1))
      ∧ ((t - 60 <= clock_at_check env')%Q →
         ∃ r w2, get_access_token env' w1 = (r, w2)
                 ∧ sent w2 = (sent w1 ++ [login_request (settings env') b u p])%list).
Proof.
  intros Hcred Hinv Hapi Hresp Htruthy Hadd w1. split.
  { by apply (login_succeeds env w b u p resp tok None). }
  split; [done|].
  intros env' Hcred'. split.
  - intros Hlt.
    rewrite (served_from_cache env' w1 b u p Hcred');
      rewrite invalidated_same by done; [done|].
    apply is_token_valid_true. by split.
  - intros Hge.
    assert (_is_token_valid (clock_at_check env') (invalidated b u p (self w1))
            = false) as Hinv'.
    { rewrite invalidated_same by done. unfold _is_token_valid. cbn.
      rewrite Htruthy. cbn. by apply Qltb_ge. }
    destruct (refresh_outcome env' w1 b u p Hcred' Hinv') as (r & c' & Hrun & _).
    eauto.
Qed.

(** Login at T = 1000 answered with [{"access_token": "tok-1"}]: the
    stored expiry is 4600, the token is served at T + 3539 and refreshed
    at exactly T + 3540 and at T + 3550. *)
Lemma default_expiry_witness :
  get_access_token
    (sample_env _runtime_config 1000 (Responded (ok_response (token_only "tok-1"))))
    fresh = (inr (PyStr "tok-1"), logged_in_default)
  ∧ _token_expires_at (self logged_in_default) = 4600%Q
  ∧ get_access_token (sample_env _runtime_config 4539 NoResponse) logged_in_default
    = (inr (PyStr "tok-1"), logged_in_default)
  ∧ (∃ r w2,
       get_access_token (sample_env _runtime_config 4540 NoResponse)
         logged_in_default = (r, w2)
       ∧ length (sent w2) = 2%nat)
  ∧ ∃ r w2,
      get_access_token (sample_env _runtime_config 4550 NoResponse)
        logged_in_default = (r, w2)
      ∧ length (sent w2) = 2%nat.
Proof.
  destruct (default_expiry
              (sample_env _runtime_config 1000
                 (Responded (ok_response (token_only "tok-1"))))
              fresh "http://api.example" "admin" "secret"
              (ok_response (token_only "tok-1")) (PyStr "tok-1") 4600%Q
              eq_refl eq_refl eq_refl) as (Hlogin & Hexp & Hnext).
  { split; [reflexivity|]. exists (token_only "tok-1"). by repeat split. }
  { reflexivity. }
  { vm_compute. reflexivity. }
  split; [exact Hlogin|]. split; [reflexivity|]. split; [|split].
  - apply (Hnext (sample_env _runtime_config 4539 NoResponse) eq_refl).
    vm_compute. reflexivity.
  - destruct (Hnext (sample_env _runtime_config 4540 NoResponse) eq_refl)
      as [_ Hrefresh].
    destruct Hrefresh as (r & w2 & Hrun & Hsent).
    { vm_compute. discriminate. }
    exists r, w2. split; [exact Hrun|]. by rewrite Hsent.
  - destruct (Hnext (sample_env _runtime_config 4550 NoResponse) eq_refl)
      as [_ Hrefresh].
    destruct Hrefresh as (r & w2 & Hrun & Hsent).
    { vm_compute. discriminate. }
    exists r, w2. split; [exact Hrun|]. by rewrite Hsent.
Defined.

(** C3 as stated fails at the boundary: with the token of a login at
    T = 1000 that omitted [expires_in], a request at exactly T + 3540 is
    not served from the cache; a second login request is sent. *)
Lemma default_expiry_boundary_is_refresh :
  get_access_token
    (sample_env _runtime_config (1000 + 3540)
       (Responded (ok_response (token_only "tok-2"))))
    logged_in_default
  ≠ (inr (PyStr "tok-1"), logged_in_default)
  ∧ sent (snd (get_access_token
                 (sample_env _runtime_config (1000 + 3540)
                    (Responded (ok_response (token_only "tok-2"))))
                 logged_in_default))
    = [login_request sample_settings "http://api.example" "admin" "secret";
       login_request sample_settings "http://api.example" "admin" "secret"].
Proof.
  split.
  - intros Heq. vm_compute in Heq. discriminate Heq.
  - reflexivity.
Qed.

(** Rounding at work: a login at the clock 2^31 - 3570 + 3 * 2^-22 without
    [expires_in] stores 2^31 + 30 + 4 * 2^-22, one unit in the last place
    above the exact sum, and a request at exactly 3540 seconds after the
    login is then still served from the cache. *)
Lemma default_expiry_rounded_up :
  float_add clock_before_2_31 (PyNum 3600)
  = inr (Qred (2147483678 + (4 # 4194304)))
  ∧ fst (get_access_token
           (sample_env _runtime_config (clock_before_2_31 + 3540) NoResponse)
           (snd (get_access_token
                   (sample_env _runtime_config clock_before_2_31
                      (Responded (ok_response (token_only "tok-1"))))
                   fresh)))
    = inr (PyStr "tok-1").
Proof. split; vm_compute; reflexivity. Qed.

(** A failed exchange writes at most the token attribute. *)
Lemma login_outcome_failure now b u p c0 rep e c' :
  login_outcome now b u p c0 rep (inl e) c' →
  _token_expires_at c' = _token_expires_at c0
  ∧ _last_base_url c' = _last_base_url c0
  ∧ _last_username c' = _last_username c0
  ∧ _last_password c' = _last_password c0.
Proof. by inversion 1. Qed.

Section Refresh.
Context (env : Env) (w : world) (b u p : string).
Hypothesis Hcred : read_credentials (settings env) (config env) = inr (b, u, p).
Hypothesis Hinv :
  _is_token_valid (clock_at_check env) (invalidated b u p (self w)) = false.

Let c0 : AuthClient := invalidated b u p (self w).
Let req : request := login_request (settings env) b u p.

Lemma refresh_no_response :
  external_api env req = NoResponse →
  get_access_token env w
    = (inl TransportError, {| self := c0; sent := sent w ++ [req] |}).
Proof.
  intros Hapi.
  destruct (refresh_outcome env w b u p Hcred Hinv) as (r & c' & -> & Hout).
  fold req c0 in Hout |- *. rewrite Hapi in Hout. by inversion Hout.
Qed.

Lemma refresh_rejected resp :
  external_api env req = Responded resp → is_success resp = false →
  get_access_token env w
    = (inl (HTTPStatusError (status_code resp) (text resp)),
       {| self := c0; sent := sent w ++ [req] |}).
Proof.
  intros Hapi Hno.
  destruct (refresh_outcome env w b u p Hcred Hinv) as (r & c' & -> & Hout).
  fold req c0 in Hout |- *. rewrite Hapi in Hout.
  inversion Hout; simplify_eq; done || congruence.
Qed.

Lemma refresh_not_object resp :
  external_api env req = Responded resp → is_success resp = true →
  (∀ d, json resp ≠ Some (PyDict d)) →
  ∃ e, (e = JSONDecodeError ∨ e = AttributeError)
       ∧ get_access_token env w
         = (inl e, {| self := c0; sent := sent w ++ [req] |}).
Proof.
  intros Hapi Hok Hobj.
  destruct (refresh_outcome env w b u p Hcred Hinv) as (r & c' & -> & Hout).
  fold req c0 in Hout |- *. rewrite Hapi in Hout.
  inversion Hout; simplify_eq; try congruence; try (by eauto);
    by edestruct Hobj.
Qed.

Lemma refresh_no_token resp d :
  external_api env req = Responded resp → is_success resp = true →
  json resp = Some (PyDict d) →
  truthy (default PyNone (d !! "access_token")) = false →
  get_access_token env w
    = (inl (ValueError "No access_token in response"),
       {| self := set_token (default PyNone (d !! "access_token")) c0;
          sent := sent w ++ [req] |}).
Proof.
  intros Hapi Hok Hjson Hfalse.
  destruct (refresh_outcome env w b u p Hcred Hinv) as (r & c' & -> & Hout).
  fold req c0 in Hout |- *. rewrite Hapi in Hout.
  inversion Hout as [|? Hno|? ? Hnone|? v ? Hv Hobj|? d' ? ? Hd' Hdef Hfalse'
                     |? d' ? ? ? Hd' Htok' Htrue Hadd'
                     |? d' ? ? ? Hd' Htok' Htrue Hadd'];
    simplify_eq.
  - congruence.
  - by destruct (Hobj d).
  - done.
  - rewrite Htok' in Hfalse. cbn in Hfalse. congruence.
  - rewrite Htok' in Hfalse. cbn in Hfalse. congruence.
Qed.

(** A value returned after a needed login is the token of the answer. *)
Lemma refresh_returns v w' :
  get_access_token env w = (inr v, w') →
  truthy v = true
  ∧ ∃ resp ei, external_api env req = Responded resp ∧ token_response resp v ei.
Proof.
  intros Hrun.
  destruct (refresh_outcome env w b u p Hcred Hinv) as (r & c' & Hrun' & Hout).
  fold req c0 in Hout. rewrite Hrun in Hrun'. simplify_eq.
  destruct (external_api env req) as [|resp]; [inversion Hout|].
  destruct (login_outcome_returns _ _ _ _ _ _ _ _ v Hout eq_refl)
    as (Htruthy & ei & Hresp).
  eauto.
Qed.

(** C4 (amended) - the instance after a failed login.  When the cache does
    not serve, the call sends its login request, and if the exchange fails
    it raises.  The expiry and the remembered triple are then those left
    by lines 36-45.  After a transport failure, a rejected status, or a
    body that is not a JSON object, the token attribute is the one left by
    lines 36-45 as well, so the whole instance is.  After a success status
    with a JSON object whose [access_token] is absent or empty, the token
    attribute holds that absent or empty value: no cached token remains. *)
Theorem failed_login_state :
  ∃ r c',
    get_access_token env w = (r, {| self := c'; sent := sent w ++ [req] |})
    ∧ (∀ e, r = inl e →
         _token_expires_at c' = _token_expires_at c0
         ∧ _last_base_url c' = _last_base_url c0
         ∧ _last_username c' = _last_username c0
         ∧ _last_password c' = _last_password c0)
    ∧ (external_api env req = NoResponse →
         r = inl TransportError ∧ c' = c0)
    ∧ (∀ resp, external_api env req = Responded resp →
         is_success resp = false →
         r = inl (HTTPStatusError (status_code resp) (text resp)) ∧ c' = c0)
    ∧ (∀ resp, external_api env req = Responded resp →
         is_success resp = true → (∀ d, json resp ≠ Some (PyDict d)) →
         (r = inl JSONDecodeError ∨ r = inl AttributeError) ∧ c' = c0)
    ∧ (∀ resp d, external_api env req = Responded resp →
         is_success resp = true → json resp = Some (PyDict d) →
         truthy (default PyNone (d !! "access_token")) = false →
         r = inl (ValueError "No access_token in response")
         ∧ c' = set_token (default PyNone (d !! "access_token")) c0
         ∧ truthy (_token c') = false).
Proof.
  destruct (refresh_outcome env w b u p Hcred Hinv) as (r & c' & Hrun & Hout).
  fold c0 req in Hrun, Hout. exists r, c'. split; [done|].
  split; [|split; [|split; [|split]]].
  - intros e ->. by eapply login_outcome_failure.
  - intros Hapi. rewrite (refresh_no_response Hapi) in Hrun. by simplify_eq.
  - intros resp Hapi Hno.
    rewrite (refresh_rejected resp Hapi Hno) in Hrun. by simplify_eq.
  - intros resp Hapi Hok Hobj.
    destruct (refresh_not_object resp Hapi Hok Hobj) as (e & He & Hrun').
    rewrite Hrun' in Hrun. simplify_eq. by destruct He as [->| ->]; eauto.
  - intros resp d Hapi Hok Hjson Hfalse.
    rewrite (refresh_no_token resp d Hapi Hok Hjson Hfalse) in Hrun.
    by simplify_eq.
Qed.

End Refresh.

(** The token of a login at T = 1000 has expired at clock 5000; the
    external API is unreachable. *)
Lemma failed_login_state_witness :
  get_access_token (sample_env _runtime_config 5000 NoResponse) logged_in
  = (inl TransportError,
     {| self := self logged_in;
        sent := sent logged_in
                ++ [login_request sample_settings "http://api.example" "admin" "secret"] |}).
Proof.
  destruct (failed_login_state (sample_env _runtime_config 5000 NoResponse)
              logged_in "http://api.example" "admin" "secret"
              eq_refl eq_refl) as (r & c' & Hrun & _ & Hdown & _).
  destruct (Hdown eq_refl) as [-> ->]. exact Hrun.
Defined.

(** C4 as stated fails for a malformed response: the cached token of a
    login at T = 1000 has expired at clock 5000, the credentials are
    unchanged (lines 36-45 leave the instance alone), the API answers 200
    with the body [{}]; the call raises, and the token attribute, which
    held ["tok-1"], is no longer what it was. *)
Lemma failed_login_overwrites_token :
  invalidated "http://api.example" "admin" "secret" (self logged_in)
  = self logged_in
  ∧ fst (get_access_token
           (sample_env _runtime_config 5000 (Responded (ok_response ∅)))
           logged_in)
    = inl (ValueError "No access_token in response")
  ∧ _token (self logged_in) = PyStr "tok-1"
  ∧ _token (self (snd (get_access_token
                         (sample_env _runtime_config 5000
                            (Responded (ok_response ∅)))
                         logged_in)))
    ≠ _token (self logged_in).
Proof. repeat split. intros Heq. vm_compute in Heq. discriminate Heq. Qed.

(** C5 - malformed response.  When a login is needed and the API answers
    with a success status and a JSON object without [access_token], the
    call raises [ValueError("No access_token in response")] and leaves no
    cached token: the token attribute is [None], the validity check fails
    at every clock, and the next call sends a login request again. *)
Theorem malformed_response env w b u p resp d :
  read_credentials (settings env) (config env) = inr (b, u, p) →
  _is_token_valid (clock_at_check env) (invalidated b u p (self w)) = false →
  external_api env (login_request (settings env) b u p) = Responded resp →
  is_success resp = true →
  json resp = Some (PyDict d) →
  d !! "access_token" = None →
  ∃ w',
    get_access_token env w
      = (inl (ValueError "No access_token in response"), w')
    ∧ _token (self w') = PyNone
    ∧ (∀ now, _is_token_valid now (self w') = false)
    ∧ (∀ env' b' u' p',
         read_credentials (settings env') (config env') = inr (b', u', p') →
         ∃ r w'',
           get_access_token env' w' = (r, w'')
           ∧ sent w'' = (sent w' ++ [login_request (settings env') b' u' p'])%list).
Proof.
  intros Hcred Hinv Hapi Hok Hjson Hnone.
  pose proof (refresh_no_token env w b u p Hcred Hinv resp d Hapi Hok Hjson)
    as Hrun.
  rewrite Hnone in Hrun. cbn [default from_option id] in Hrun.
  specialize (Hrun eq_refl).
  eexists. split; [exact Hrun|]. cbn [self sent].
  split; [done|]. split; [done|].
  intros env' b' u' p' Hcred'.
  match goal with |- context [get_access_token env' ?w1] => set (w' := w1) end.
  assert (_is_token_valid (clock_at_check env') (invalidated b' u' p' (self w'))
          = false) as Hinv'.
  { apply is_token_valid_no_token. unfold invalidated.
    by destruct (_ || _). }
  destruct (refresh_outcome env' w' b' u' p' Hcred' Hinv') as (r & c' & Hrun' & _).
  eauto.
Qed.

(** A first call on a fresh instance, answered 200 with the body [{}]. *)
Lemma malformed_response_witness :
  ∃ w',
    get_access_token (sample_env _runtime_config 1000 (Responded (ok_response ∅)))
      fresh = (inl (ValueError "No access_token in response"), w')
    ∧ _token (self w') = PyNone.
Proof.
  destruct (malformed_response
              (sample_env _runtime_config 1000 (Responded (ok_response ∅)))
              fresh "http://api.example" "admin" "secret" (ok_response ∅) ∅)
    as (w' & Hrun & Htok & _); [reflexivity..|].
  exists w'. split; [exact Hrun | exact Htok].
Defined.

(** [get_authorized_client] is [get_access_token] followed by the
    construction of the client. *)
Lemma get_authorized_client_eq str_other env w :
  get_authorized_client str_other env w =
    match get_access_token env w with
    | (inr token, w') =>
        (inr {| headers := [("Authorization",
                             "Bearer " +:+ format str_other token)];
                timeout := 30 |}, w')
    | (inl e, w') => (inl e, w')
    end.
Proof.
  unfold get_authorized_client. run_monad.
  by destruct (get_access_token env w) as [[e|token] w'].
Qed.

(** When a getter raises, the call raises before anything is written. *)
Lemma get_access_token_no_credentials env w e :
  read_credentials (settings env) (config env) = inl e →
  ∃ e', get_access_token env w = (inl e', w).
Proof.
  unfold read_credentials, get_access_token. run_monad.
  destruct (get_external_api_base_url _ _); [eauto|].
  destruct (get_external_api_username _ _); [eauto|].
  destruct (get_external_api_password _ _); [eauto|done].
Qed.


(** C6 - error propagation, no silent fallback.  When a login is needed:
    a transport failure, a rejected status (with its status code and
    body) and a success answer without a usable [access_token] each leave
    [get_access_token] as the exception raised; [get_authorized_client]
    raises whatever [get_access_token] raises; and a value that
    [get_access_token] returns is the token of the answer to this call's
    login request, never the token that was cached before. *)
Theorem login_failure_propagates str_other env w b u p :
  read_credentials (settings env) (config env) = inr (b, u, p) →
  _is_token_valid (clock_at_check env) (invalidated b u p (self w)) = false →
  let req := login_request (settings env) b u p in
  (external_api env req = NoResponse →
     fst (get_access_token env w) = inl TransportError)
  ∧ (∀ resp, external_api env req = Responded resp → is_success resp = false →
       fst (get_access_token env w)
         = inl (HTTPStatusError (status_code resp) (text resp)))
  ∧ (∀ resp d, external_api env req = Responded resp → is_success resp = true →
       json resp = Some (PyDict d) →
       truthy (default PyNone (d !! "access_token")) = false →
       fst (get_access_token env w)
         = inl (ValueError "No access_token in response"))
  ∧ (∀ e w', get_access_token env w = (inl e, w') →
       get_authorized_client str_other env w = (inl e, w'))
  ∧ (∀ v w', get_access_token env w = (inr v, w') →
       ∃ resp ei, external_api env req = Responded resp
                  ∧ token_response resp v ei ∧ truthy v = true).
Proof.
  intros Hcred Hinv req. split; [|split; [|split; [|split]]].
  - intros Hapi. by rewrite (refresh_no_response env w b u p Hcred Hinv Hapi).
  - intros resp Hapi Hno.
    by rewrite (refresh_rejected env w b u p Hcred Hinv resp Hapi Hno).
  - intros resp d Hapi Hok Hjson Hfalse.
    by rewrite (refresh_no_token env w b u p Hcred Hinv resp d Hapi Hok Hjson
                  Hfalse).
  - intros e w' Hrun. by rewrite get_authorized_client_eq, Hrun.
  - intros v w' Hrun.
    destruct (refresh_returns env w b u p Hcred Hinv v w' Hrun)
      as (Htruthy & resp & ei & Hapi & Hresp).
    eauto.
Qed.

(** The API answers 401 to a first call. *)
Lemma login_failure_propagates_witness :
  fst (get_access_token
         (sample_env _runtime_config 1000
            (Responded {| status_code := 401; text := "denied"; json := None |}))
         fresh) = inl (HTTPStatusError 401 "denied")
  ∧ fst (get_authorized_client sample_str
           (sample_env _runtime_config 1000
              (Responded {| status_code := 401; text := "denied"; json := None |}))
           fresh) = inl (HTTPStatusError 401 "denied").
Proof.
  destruct (login_failure_propagates sample_str
              (sample_env _runtime_config 1000
                 (Responded {| status_code := 401; text := "denied";
                               json := None |}))
              fresh "http://api.example" "admin" "secret" eq_refl eq_refl)
    as (_ & Hrej & _ & Hclient & _).
  pose proof (Hrej _ eq_refl eq_refl) as Hfst. split; [exact Hfst|].
  destruct (get_access_token _ fresh) as [r w'] eqn:Hrun.
  cbn [fst] in Hfst. subst r. by rewrite (Hclient _ _ eq_refl).
Defined.

(** C9 - the authorized client.  [get_authorized_client] runs
    [get_access_token]; when that returns [token], the result is a client
    with the one header [Authorization: Bearer <token>] and a timeout of
    30 seconds, and the instance and the request log are exactly those
    that [get_access_token] leaves; when it raises, so does the wrapper.
    A token that is a string is inserted in the header as it is. *)
Theorem authorized_client_wrapper str_other env w :
  (get_authorized_client str_other env w =
     match get_access_token env w with
     | (inr token, w') =>
         (inr {| headers := [("Authorization",
                              "Bearer " +:+ format str_other token)];
                 timeout := 30 |}, w')
     | (inl e, w') => (inl e, w')
     end)
  ∧ (∀ s, format str_other (PyStr s) = s)
  ∧ (∀ s w', get_access_token env w = (inr (PyStr s), w') →
       get_authorized_client str_other env w
       = (inr {| headers := [("Authorization", "Bearer " +:+ s)];
                 timeout := 30 |}, w')).
Proof.
  split; [apply get_authorized_client_eq|]. split; [done|].
  intros s w' Hrun. by rewrite get_authorized_client_eq, Hrun.
Qed.

Lemma authorized_client_wrapper_witness :
  get_authorized_client sample_str
    (sample_env _runtime_config 1010 NoResponse) logged_in
  = (inr {| headers := [("Authorization", "Bearer tok-1")]; timeout := 30 |},
     logged_in).
Proof.
  destruct (authorized_client_wrapper sample_str
              (sample_env _runtime_config 1010 NoResponse) logged_in)
    as (_ & _ & Hstr).
  apply (Hstr "tok-1" logged_in). reflexivity.
Defined.

(** ** Concurrent and sequential callers *)







(** Calls served by the cache leave everything as it is. *)
Lemma call_each_cached envs w b u p :
  truthy (_token (self w)) = true →
  issued_for (self w) = Some (b, u, p) →
  Forall (λ env, read_credentials (settings env) (config env) = inr (b, u, p)
                 ∧ (clock_at_check env < _token_expires_at (self w) - 60)%Q)
         envs →
  call_each envs w = (replicate (length envs) (inr (_token (self w))), w).
Proof.
  intros Htruthy Hfor. induction 1 as [|env envs [Hcred Hlt] _ IH]; [done|].
  cbn. rewrite (served_from_cache env w b u p Hcred);
    rewrite (invalidated_same _ _ _ _ Hfor).
  - destruct w as [c l]. cbn [self sent] in *. by rewrite IH.
  - by apply is_token_valid_true.
Qed.

(** C8 (amended) - callers one after the other.  The instance holds no
    lock and does not coalesce logins.  What holds is the sequential
    case: when a first call needs a login and gets a well-formed answer,
    and each further call starts after the previous one has finished, with
    unchanged credentials and strictly before the stored expiry minus 60
    seconds, then exactly one login request is sent in all and every
    caller receives the token of that login. *)
Theorem sequential_callers_share_login env envs w b u p resp tok ei t :
  read_credentials (settings env) (config env) = inr (b, u, p) →
  _is_token_valid (clock_at_check env) (invalidated b u p (self w)) = false →
  external_api env (login_request (settings env) b u p) = Responded resp →
  token_response resp tok ei →
  truthy tok = true →
  float_add (clock_at_store env) (default (PyNum 3600) ei) = inr t →
  Forall (λ env', read_credentials (settings env') (config env') = inr (b, u, p)
                  ∧ (clock_at_check env' < t - 60)%Q)
         envs →
  call_each (env :: envs) w
  = (replicate (S (length envs)) (inr tok),
     {| self := stored tok t b u p;
        sent := sent w ++ [login_request (settings env) b u p] |}).
Proof.
  intros Hcred Hinv Hapi Hresp Htruthy Hadd Henvs.
  cbn [call_each].
  rewrite (login_succeeds env w b u p resp tok ei t) by done.
  by rewrite (call_each_cached envs _ b u p).
Qed.

(** Three callers on a fresh instance at clocks 1000, 1001 and 1002. *)
Lemma sequential_callers_share_login_witness :
  call_each
    [sample_env _runtime_config 1000
       (Responded (ok_response (token_only "tok-A")));
     sample_env _runtime_config 1001
       (Responded (ok_response (token_only "tok-B")));
     sample_env _runtime_config 1002
       (Responded (ok_response (token_only "tok-C")))]
    fresh
  = ([inr (PyStr "tok-A"); inr (PyStr "tok-A"); inr (PyStr "tok-A")],
     {| self := stored (PyStr "tok-A") (1000 + 3600)
                  "http://api.example" "admin" "secret";
        sent := [login_request sample_settings "http://api.example" "admin" "secret"] |}).
Proof.
  apply (sequential_callers_share_login
           (sample_env _runtime_config 1000
              (Responded (ok_response (token_only "tok-A"))))
           [sample_env _runtime_config 1001
              (Responded (ok_response (token_only "tok-B")));
            sample_env _runtime_config 1002
              (Responded (ok_response (token_only "tok-C")))]
           fresh "http://api.example" "admin" "secret"
           (ok_response (token_only "tok-A")) (PyStr "tok-A") None).
  - reflexivity.
  - reflexivity.
  - reflexivity.
  - split; [reflexivity|]. exists (token_only "tok-A"). by repeat split.
  - reflexivity.
  - reflexivity.
  - repeat constructor; vm_compute; reflexivity.
Defined.

(** C8 as stated fails: two callers on a fresh instance whose calls
    overlap both find the cache empty, so two login requests reach the
    external API, and each caller returns the token of its own login. *)
Lemma overlapping_callers_both_login :
  ∃ sys,
    run_schedule sample_settings _runtime_config overlapping_callers (callers 2)
    = Some sys
    ∧ length (sent (mem sys)) = 2%nat
    ∧ tasks sys = [Returned (PyStr "tok-A"); Returned (PyStr "tok-B")]
    ∧ ¬ (length (sent (mem sys)) ≤ 1)%nat.
Proof.
  eexists. split; [vm_compute; reflexivity|].
  split; [reflexivity|]. split; [reflexivity|]. cbn. lia.
Qed.

(** * Further properties *)

(** ** The configuration store: reset, overwriting, shape *)

(** X1 - reset undoes set.  Whatever URL was set, after
    [reset_external_api_base_url] the URL in effect is the default of the
    settings and the username and password in effect are what they were;
    a set followed by a reset leaves the store that the reset alone
    leaves, which is the store itself when no override was in place. *)
Theorem reset_undoes_set st url cfg :
  cfg !! "external_api_base_url" = Some None →
  reset_external_api_base_url (set_external_api_base_url url cfg) = cfg
  ∧ get_external_api_base_url st
      (reset_external_api_base_url (set_external_api_base_url url cfg))
    = inr (EXTERNAL_API_BASE_URL st)
  ∧ (∀ cfg', get_external_api_base_url st (reset_external_api_base_url cfg')
             = inr (EXTERNAL_API_BASE_URL st)
             ∧ get_external_api_username st (reset_external_api_base_url cfg')
               = get_external_api_username st cfg'
             ∧ get_external_api_password st (reset_external_api_base_url cfg')
               = get_external_api_password st cfg').
Proof.
  intros Hnone.
  assert (reset_external_api_base_url (set_external_api_base_url url cfg) = cfg)
    as Hback.
  { unfold reset_external_api_base_url, set_external_api_base_url.
    rewrite insert_insert_eq. by apply insert_id. }
  split; [done|]. split.
  - rewrite Hback. unfold get_external_api_base_url. by rewrite Hnone.
  - intros cfg'.
    unfold get_external_api_base_url, get_external_api_username,
      get_external_api_password, reset_external_api_base_url.
    by rewrite lookup_insert_eq, !lookup_insert_ne.
Qed.

Lemma reset_undoes_set_witness :
  reset_external_api_base_url
    (set_external_api_base_url "http://other.example" _runtime_config)
  = _runtime_config.
Proof.
  apply (reset_undoes_set sample_settings "http://other.example"
           _runtime_config).
  reflexivity.
Defined.

(** X2 - the last write wins, and writes to different keys commute: the
    store after two sets of one key is the store after the second alone,
    and two sets of different keys give the same store in either order. *)
Theorem set_value_compose cfg k k' v v' :
  set_value k v' (set_value k v cfg) = set_value k v' cfg
  ∧ (k ≠ k' →
       set_value k v (set_value k' v' cfg) = set_value k' v' (set_value k v cfg)).
Proof.
  rewrite !set_value_insert. split.
  - apply insert_insert_eq.
  - intros Hne. apply insert_insert_ne. intros Heq. by apply Hne, slot_inj.
Qed.

Lemma set_value_compose_witness :
  set_value Username "alice" (set_value Password "pw" _runtime_config)
  = set_value Password "pw" (set_value Username "alice" _runtime_config).
Proof.
  apply (set_value_compose _runtime_config Username Password "alice" "pw").
  discriminate.
Defined.

(** X3 - the shape of the store.  Every store the program can reach has
    exactly the three keys of the initial dict: no mutator adds or removes
    a key. *)
Theorem reachable_dom cfg :
  reachable cfg →
  dom cfg = ({["external_api_base_url"; "external_api_username";
               "external_api_password"]} : gset string).
Proof.
  induction 1 as [|url cfg _ IH|cfg _ IH|username cfg _ IH|password cfg _ IH].
  - unfold _runtime_config. rewrite !dom_insert_L, dom_empty_L. set_solver.
  - unfold set_external_api_base_url. rewrite dom_insert_L, IH. set_solver.
  - unfold reset_external_api_base_url. rewrite dom_insert_L, IH. set_solver.
  - unfold set_external_api_username. rewrite dom_insert_L, IH. set_solver.
  - unfold set_external_api_password. rewrite dom_insert_L, IH. set_solver.
Qed.

Lemma reachable_dom_witness :
  dom (set_external_api_password "pw"
         (reset_external_api_base_url
            (set_external_api_base_url "http://other.example" _runtime_config)))
  = ({["external_api_base_url"; "external_api_username";
       "external_api_password"]} : gset string).
Proof.
  apply reachable_dom. repeat constructor.
Defined.

(** ** The authentication client: requests, errors, expiry, retries *)

(** X4 - one request per call at most.  A call of [get_access_token]
    either leaves the request log as it is, or appends exactly one login
    request; that request is built from the triple the getters return at
    the call (never from the remembered one), and it is sent only when the
    validity check has failed. *)
Theorem one_request_per_call env w r w' :
  get_access_token env w = (r, w') →
  sent w' = sent w
  ∨ ∃ b u p,
      read_credentials (settings env) (config env) = inr (b, u, p)
      ∧ _is_token_valid (clock_at_check env) (invalidated b u p (self w)) = false
      ∧ sent w' = (sent w ++ [login_request (settings env) b u p])%list.
Proof.
  intros Hrun.
  destruct (read_credentials (settings env) (config env))
    as [e|[[b u] p]] eqn:Hcred.
  { destruct (get_access_token_no_credentials env w e Hcred) as [e' He'].
    rewrite Hrun in He'. left. by simplify_eq. }
  destruct (_is_token_valid (clock_at_check env) (invalidated b u p (self w)))
    eqn:Hvalid.
  - rewrite (served_from_cache env w b u p Hcred Hvalid) in Hrun.
    left. by simplify_eq.
  - destruct (refresh_outcome env w b u p Hcred Hvalid) as (r' & c' & Hrun' & _).
    rewrite Hrun in Hrun'. right. exists b, u, p. by simplify_eq.
Qed.

Lemma one_request_per_call_witness :
  sent logged_in = sent fresh
  ∨ ∃ b u p,
      read_credentials sample_settings _runtime_config = inr (b, u, p)
      ∧ _is_token_valid 1000 (invalidated b u p (self fresh)) = false
      ∧ sent logged_in = (sent fresh ++ [login_request sample_settings b u p])%list.
Proof.
  apply (one_request_per_call
           (sample_env _runtime_config 1000
              (Responded (ok_response (token_and_expiry "tok-1" 3600))))
           fresh (inr (PyStr "tok-1")) logged_in).
  reflexivity.
Defined.

(** X5 - errors come from the login exchange only.  On a store the program
    can reach, the getters answer, and a call of [get_access_token] that
    raises has found no valid cached token and has sent its login request
    in this call: no exception leaves the call before the request is
    sent, and a call served from the cache does not raise. *)
Theorem errors_only_from_login env w e w' :
  reachable (config env) →
  get_access_token env w = (inl e, w') →
  ∃ b u p,
    read_credentials (settings env) (config env) = inr (b, u, p)
    ∧ _is_token_valid (clock_at_check env) (invalidated b u p (self w)) = false
    ∧ sent w' = (sent w ++ [login_request (settings env) b u p])%list.
Proof.
  intros Hreach Hrun.
  destruct (reachable_read_credentials (settings env) (config env) Hreach)
    as (b & u & p & Hcred).
  destruct (_is_token_valid (clock_at_check env) (invalidated b u p (self w)))
    eqn:Hvalid.
  { rewrite (served_from_cache env w b u p Hcred Hvalid) in Hrun. done. }
  destruct (refresh_outcome env w b u p Hcred Hvalid) as (r' & c' & Hrun' & Hout).
  rewrite Hrun in Hrun'. simplify_eq. by exists b, u, p.
Qed.

Lemma errors_only_from_login_witness :
  ∃ b u p,
    read_credentials sample_settings _runtime_config = inr (b, u, p)
    ∧ sent (snd (get_access_token
                   (sample_env _runtime_config 5000 NoResponse) logged_in))
      = (sent logged_in ++ [login_request sample_settings b u p])%list.
Proof.
  destruct (errors_only_from_login
              (sample_env _runtime_config 5000 NoResponse) logged_in
              TransportError
              (snd (get_access_token
                      (sample_env _runtime_config 5000 NoResponse) logged_in)))
    as (b & u & p & Hcred & _ & Hsent).
  - constructor.
  - reflexivity.
  - exists b, u, p. split; [exact Hcred | exact Hsent].
Defined.

(** X6 - the validity window of a token with an explicit [expires_in].
    A login at clock [T] answered with a number [n] as [expires_in], for
    which the float sum of [T] and [n] is [t], stores [expires_at = t]
    (the number of the answer is used, not the default).  With unchanged
    credentials the token is served from the cache exactly at the clocks
    strictly before [t - 60], and a call at any other clock sends a new
    login request.  A token whose stored expiry is at most 60 past a clock
    is therefore never served from that clock on. *)
Theorem expiry_window env w b u p resp tok n t :
  read_credentials (settings env) (config env) = inr (b, u, p) →
  _is_token_valid (clock_at_check env) (invalidated b u p (self w)) = false →
  external_api env (login_request (settings env) b u p) = Responded resp →
  token_response resp tok (Some (PyNum n)) →
  truthy tok = true →
  float_add (clock_at_store env) (PyNum n) = inr t →
  let w1 := {| self := stored tok t b u p;
               sent := sent w ++ [login_request (settings env) b u p] |} in
  get_access_token env w = (inr tok, w1)
  ∧ ∀ env',
      read_credentials (settings env') (config env') = inr (b, u, p) →
      ((clock_at_check env' < t - 60)%Q →
         get_access_token env' w1 = (inr tok, w1))
      ∧ ((t - 60 <= clock_at_check env')%Q →
         ∃ r w2, get_access_token env' w1 = (r, w2)
                 ∧ sent w2 = (sent w1 ++ [login_request (settings env') b u p])%list)
      ∧ (∀ T', (t <= T' + 60)%Q → (T' <= clock_at_check env')%Q →
         ∃ r w2, get_access_token env' w1 = (r, w2)
                 ∧ sent w2 = (sent w1 ++ [login_request (settings env') b u p])%list).
Proof.
  intros Hcred Hinv Hapi Hresp Htruthy Hadd w1. split.
  { by apply (login_succeeds env w b u p resp tok (Some (PyNum n))). }
  intros env' Hcred'.
  assert (∀ now, (t - 60 <= now)%Q →
            _is_token_valid now (invalidated b u p (self w1)) = false)
    as Hexpired.
  { intros now Hge. rewrite invalidated_same by done.
    unfold _is_token_valid. cbn. rewrite Htruthy. cbn. by apply Qltb_ge. }
  assert ((t - 60 <= clock_at_check env')%Q →
          ∃ r w2, get_access_token env' w1 = (r, w2)
                  ∧ sent w2 = (sent w1 ++ [login_request (settings env') b u p])%list)
    as Hrefresh.
  { intros Hge.
    destruct (refresh_outcome env' w1 b u p Hcred' (Hexpired _ Hge))
      as (r & c' & Hrun & _).
    eauto. }
  split; [|split].
  - intros Hlt.
    rewrite (served_from_cache env' w1 b u p Hcred');
      rewrite invalidated_same by done; [done|].
    apply is_token_valid_true. by split.
  - exact Hrefresh.
  - intros T' Hshort HT. apply Hrefresh. lra.
Qed.

(** A token issued at T = 1000 for 30 seconds is refreshed at T + 1. *)
Lemma expiry_window_witness :
  ∃ r w2,
    get_access_token
      (sample_env _runtime_config 1001
         (Responded (ok_response (token_only "tok-2"))))
      {| self := stored (PyStr "tok-1") 1030
                   "http://api.example" "admin" "secret";
         sent := [login_request sample_settings
                    "http://api.example" "admin" "secret"] |}
    = (r, w2)
    ∧ length (sent w2) = 2%nat.
Proof.
  destruct (expiry_window
              (sample_env _runtime_config 1000
                 (Responded (ok_response (token_and_expiry "tok-1" 30))))
              fresh "http://api.example" "admin" "secret"
              (ok_response (token_and_expiry "tok-1" 30)) (PyStr "tok-1") 30
              1030%Q)
    as [_ Hnext].
  - reflexivity.
  - reflexivity.
  - reflexivity.
  - split; [reflexivity|]. exists (token_and_expiry "tok-1" 30).
    by repeat split.
  - reflexivity.
  - vm_compute. reflexivity.
  - destruct (Hnext (sample_env _runtime_config 1001
                       (Responded (ok_response (token_only "tok-2"))))
                eq_refl) as (_ & _ & Hshort).
    destruct (Hshort 1000%Q) as (r & w2 & Hrun & Hsent).
    + vm_compute. discriminate.
    + vm_compute. discriminate.
    + exists r, w2. split; [exact Hrun|]. by rewrite Hsent.
Defined.

(** A validity check that fails keeps failing as the clock advances. *)
Lemma is_token_valid_later now now' c :
  (now <= now')%Q → _is_token_valid now c = false →
  _is_token_valid now' c = false.
Proof.
  unfold _is_token_valid. destruct (truthy (_token c)); cbn; [|done].
  rewrite !Qltb_ge. lra.
Qed.

(** Lines 36-45 cannot make an instance valid. *)
Lemma invalidated_stays_invalid now b u p c :
  _is_token_valid now c = false → _is_token_valid now (invalidated b u p c) = false.
Proof. unfold invalidated. by destruct (_ || _). Qed.

(** X7 - a failed login does not block the next one.  After a call that
    needed a login and failed on a transport error or a rejected status,
    a further call at the same or a later clock, whatever the credentials
    then in effect, sends a login request again (the failure is not
    cached), and when that one gets a well-formed answer it returns the
    new token, stored with the triple of the second call. *)
Theorem retry_after_failed_login env w b u p env' b' u' p' :
  read_credentials (settings env) (config env) = inr (b, u, p) →
  _is_token_valid (clock_at_check env) (invalidated b u p (self w)) = false →
  (external_api env (login_request (settings env) b u p) = NoResponse
   ∨ ∃ resp, external_api env (login_request (settings env) b u p)
               = Responded resp ∧ is_success resp = false) →
  (clock_at_check env <= clock_at_check env')%Q →
  read_credentials (settings env') (config env') = inr (b', u', p') →
  ∃ e w1,
    get_access_token env w = (inl e, w1)
    ∧ ∃ r w2,
        get_access_token env' w1 = (r, w2)
        ∧ sent w2 = (sent w ++ [login_request (settings env) b u p;
                                login_request (settings env') b' u' p'])%list
        ∧ (∀ resp' tok ei t,
             external_api env' (login_request (settings env') b' u' p')
               = Responded resp' →
             token_response resp' tok ei → truthy tok = true →
             float_add (clock_at_store env') (default (PyNum 3600) ei) = inr t →
             r = inr tok ∧ self w2 = stored tok t b' u' p').
Proof.
  intros Hcred Hinv Hfail Hclock Hcred'.
  set (c0 := invalidated b u p (self w)).
  set (req := login_request (settings env) b u p).
  assert (∃ e, get_access_token env w
               = (inl e, {| self := c0; sent := sent w ++ [req] |}))
    as [e Hrun].
  { destruct Hfail as [Hdown|(resp & Hapi & Hno)].
    - eexists. by apply refresh_no_response.
    - eexists. by apply refresh_rejected. }
  exists e, {| self := c0; sent := sent w ++ [req] |}. split; [done|].
  set (w1 := {| self := c0; sent := sent w ++ [req] |}).
  assert (_is_token_valid (clock_at_check env') (invalidated b' u' p' (self w1))
          = false) as Hinv'.
  { apply invalidated_stays_invalid.
    by apply (is_token_valid_later (clock_at_check env)). }
  destruct (refresh_outcome env' w1 b' u' p' Hcred' Hinv') as (r & c' & Hrun' & _).
  exists r, {| self := c';
               sent := sent w1 ++ [login_request (settings env') b' u' p'] |}.
  split; [done|]. split.
  - cbn. by rewrite <- app_assoc.
  - intros resp' tok ei t Hapi' Hresp' Htruthy Hadd.
    rewrite (login_succeeds env' w1 b' u' p' resp' tok ei t) in Hrun' by done.
    by simplify_eq.
Qed.

(** A first call is answered 401; the credentials are corrected through
    the store, and the next call succeeds. *)
Lemma retry_after_failed_login_witness :
  ∃ e w1,
    get_access_token
      (sample_env _runtime_config 1000
         (Responded {| status_code := 401; text := "denied"; json := None |}))
      fresh = (inl e, w1)
    ∧ fst (get_access_token
             (sample_env (set_external_api_password "right" _runtime_config) 1005
                (Responded (ok_response (token_only "tok-1"))))
             w1) = inr (PyStr "tok-1").
Proof.
  destruct (retry_after_failed_login
              (sample_env _runtime_config 1000
                 (Responded {| status_code := 401; text := "denied";
                               json := None |}))
              fresh "http://api.example" "admin" "secret"
              (sample_env (set_external_api_password "right" _runtime_config)
                 1005 (Responded (ok_response (token_only "tok-1"))))
              "http://api.example" "admin" "right")
    as (e & w1 & Hrun & r & w2 & Hrun' & _ & Hok).
  - reflexivity.
  - reflexivity.
  - right. eexists. split; reflexivity.
  - vm_compute. discriminate.
  - reflexivity.
  - exists e, w1. split; [exact Hrun|].
    destruct (Hok (ok_response (token_only "tok-1")) (PyStr "tok-1") None
                (1005 + 3600)%Q) as [-> _].
    + reflexivity.
    + split; [reflexivity|]. exists (token_only "tok-1"). by repeat split.
    + reflexivity.
    + reflexivity.
    + by rewrite Hrun'.
Defined.

(** ** The session: tokens served were issued for the credentials in effect *)

Lemma issued_for_set_token tok c : issued_for (set_token tok c) = issued_for c.
Proof. done. Qed.

(** When lines 36-45 find nothing changed, a remembered triple is the
    current one. *)
Lemma unchanged_triple c b u p t :
  issued_for c = Some t →
  differs (_last_base_url c) b || differs (_last_username c) u
    || differs (_last_password c) p = false →
  t = (b, u, p).
Proof.
  destruct t as [[b0 u0] p0]. intros (Hb & Hu & Hp)%issued_for_inv.
  rewrite Hb, Hu, Hp. unfold differs.
  rewrite !orb_false_iff, !bool_decide_eq_false.
  intros [[Hb' Hu'] Hp'].
  destruct (decide (b0 = b)) as [->|]; [|done].
  destruct (decide (u0 = u)) as [->|]; [|done].
  by destruct (decide (p0 = p)) as [->|].
Qed.

Lemma session_inv_mono st c h h' :
  h ⊆ h' → session_inv st c h → session_inv st c h'.
Proof.
  intros Hsub [H0 H1]. split; [done|].
  intros Htruthy. destruct (H1 Htruthy) as [Hzero|(b & u & p & resp & ei & ? & ? & ?)];
    [by left|].
  right. exists b, u, p, resp, ei. eauto.
Qed.

Lemma session_inv_invalidated st c h b u p :
  session_inv st c h → session_inv st (invalidated b u p c) h.
Proof.
  intros Hinv. unfold invalidated. destruct (_ || _); [|done].
  split; [done|]. by left.
Qed.

(** A token written by a login from the instance [invalidated b u p c]. *)
Lemma session_inv_write st c h b u p resp tok ei :
  session_inv st c h →
  (login_request st b u p, Responded resp) ∈ h →
  token_response resp tok ei →
  session_inv st (set_token tok (invalidated b u p c)) h.
Proof.
  intros [H0 H1] Hin Hresp. unfold invalidated.
  destruct (differs (_last_base_url c) b || differs (_last_username c) u
            || differs (_last_password c) p) eqn:Hflag.
  { split; [done|]. by left. }
  split; [done|]. cbn. intros _.
  destruct (issued_for c) as [t|] eqn:Hfor.
  - right. pose proof (unchanged_triple c b u p t Hfor Hflag) as ->.
    exists b, u, p, resp, ei. by rewrite issued_for_set_token.
  - left. by apply H0.
Qed.

(** One call keeps the invariant, and what it returns was issued for the
    current triple. *)
Lemma session_step st env w h r w' :
  settings env = st →
  (-60 <= clock_at_check env)%Q →
  session_inv st (self w) h →
  get_access_token env w = (r, w') →
  let h' := (h ++ map (λ req, (req, external_api env req))
                      (drop (length (sent w)) (sent w')))%list in
  session_inv st (self w') h'
  ∧ ∀ v b u p,
      r = inr v → read_credentials st (config env) = inr (b, u, p) →
      ∃ resp ei, (login_request st b u p, Responded resp) ∈ h'
                 ∧ token_response resp v ei.
Proof.
  intros <- Hclock Hinv Hrun.
  destruct (read_credentials (settings env) (config env))
    as [e|[[b u] p]] eqn:Hcred.
  { destruct (get_access_token_no_credentials env w e Hcred) as [e' He'].
    rewrite Hrun in He'. simplify_eq. rewrite drop_all. cbn.
    rewrite app_nil_r. by split. }
  destruct (_is_token_valid (clock_at_check env) (invalidated b u p (self w)))
    eqn:Hvalid.
  - rewrite (served_from_cache env w b u p Hcred Hvalid) in Hrun. simplify_eq.
    cbn [self sent]. rewrite drop_all. cbn. rewrite app_nil_r.
    split; [by apply session_inv_invalidated|].
    intros v b' u' p' [= <-] [= <- <- <-].
    apply is_token_valid_true in Hvalid as [Htruthy Hlt].
    unfold invalidated in Htruthy, Hlt |- *.
    destruct (differs (_last_base_url (self w)) b
              || differs (_last_username (self w)) u
              || differs (_last_password (self w)) p) eqn:Hflag; [done|].
    destruct Hinv as [_ H1].
    destruct (H1 Htruthy) as [Hzero|(b0 & u0 & p0 & resp & ei & Hfor & Hin & Hresp)].
    { rewrite Hzero in Hlt. lra. }
    pose proof (unchanged_triple _ b u p _ Hfor Hflag) as [= -> -> ->].
    eauto.
  - destruct (refresh_outcome env w b u p Hcred Hvalid) as (r' & c' & Hrun' & Hout).
    rewrite Hrun in Hrun'. simplify_eq. cbn [self sent].
    rewrite drop_app_length. cbn [map].
    set (req := login_request (settings env) b u p) in *.
    set (h' := (h ++ [(req, external_api env req)])%list).
    assert (h ⊆ h') as Hsub by (unfold h'; set_solver).
    assert ((req, external_api env req) ∈ h') as Hlast by (unfold h'; set_solver).
    pose proof (session_inv_mono _ _ _ _ Hsub Hinv) as Hinv'.
    inversion Hout as [Hapi|resp Hno Hapi|resp Hok Hnone Hapi
                       |resp v Hok Hv Hobj Hapi
                       |resp d tok Hok Hd Hdef Hfalse Hapi
                       |resp d tok e Hok Hd Htok Htrue Hadd Hapi
                       |resp d tok t Hok Hd Htok Htrue Hadd Hapi];
      subst.
    + split; [by apply session_inv_invalidated|]. intros; discriminate.
    + split; [by apply session_inv_invalidated|]. intros; discriminate.
    + split; [by apply session_inv_invalidated|]. intros; discriminate.
    + split; [by apply session_inv_invalidated|]. intros; discriminate.
    + split; [|intros; discriminate].
      destruct (session_inv_invalidated _ _ _ b u p Hinv') as [H0 _].
      split; [done|]. cbn. congruence.
    + split; [|intros; discriminate].
      rewrite <- Hapi in Hlast.
      apply (session_inv_write _ _ _ _ _ _ resp tok (d !! "expires_in"));
        [done..|].
      split; [done|]. exists d. by repeat split.
    + rewrite <- Hapi in Hlast.
      assert (token_response resp tok (d !! "expires_in")) as Hresp
        by (split; [done|]; exists d; by repeat split).
      split.
      * split; [done|]. intros _. right.
        exists b, u, p, resp, (d !! "expires_in").
        split; [done|]. split; [exact Hlast | exact Hresp].
      * intros v b' u' p' [= <-] [= <- <- <-]. eauto.
Qed.

Lemma session_trace st envs :
  Forall (λ env, settings env = st ∧ (-60 <= clock_at_check env)%Q) envs →
  ∀ w h i env v b u p,
    session_inv st (self w) h →
    envs !! i = Some env →
    (call_each envs w).1 !! i = Some (inr v) →
    read_credentials st (config env) = inr (b, u, p) →
    ∃ resp ei,
      (login_request st b u p, Responded resp)
        ∈ (h ++ exchanges (take (S i) envs) w)%list
      ∧ token_response resp v ei.
Proof.
  induction 1 as [|env0 envs [Hst Hclock] _ IH];
    intros w h i env v b u p Hinv Hi Hres Hcred; [done|].
  cbn [call_each exchanges take] in *.
  destruct (get_access_token env0 w) as [r w'] eqn:Hrun.
  destruct (session_step st env0 w h r w' Hst Hclock Hinv Hrun) as [Hinv' Hret].
  destruct (call_each envs w') as [rs w''] eqn:Hrest.
  destruct i as [|i]; cbn in Hi, Hres; simplify_eq.
  - rewrite take_0. cbn [exchanges]. rewrite app_nil_r.
    by apply (Hret v b u p).
  - destruct (IH w' _ i env v b u p Hinv' Hi) as (resp & ei & Hin & Hresp);
      [by rewrite Hrest|done|].
    exists resp, ei. split; [|done]. by rewrite <- app_assoc in Hin.
Qed.

(** X8 - what is served was issued for the credentials in effect.  Take
    any sequence of calls of [get_access_token] on the global instance,
    with any configuration changes, answers and failures in between, the
    clock never below -60.  Whenever a call returns a value, from the
    cache or from a login, that value is the [access_token] of a success
    answer that the external API gave, in this call or an earlier one, to
    a login request for the very triple in effect at this call. *)
Theorem served_token_was_issued st envs i env v b u p :
  Forall (λ env, settings env = st ∧ (-60 <= clock_at_check env)%Q) envs →
  envs !! i = Some env →
  (call_each envs fresh).1 !! i = Some (inr v) →
  read_credentials st (config env) = inr (b, u, p) →
  ∃ resp ei,
    (login_request st b u p, Responded resp) ∈ exchanges (take (S i) envs) fresh
    ∧ token_response resp v ei.
Proof.
  intros Henvs Hi Hres Hcred.
  apply (session_trace st envs Henvs fresh [] i env v b u p); [|done..].
  split; [done|]. cbn. discriminate.
Qed.

Lemma served_token_was_issued_witness :
  (call_each sample_session fresh).1 !! 2%nat = Some (inr (PyStr "tok-2"))
  ∧ ∃ resp ei,
      (login_request sample_settings "http://api.example" "alice" "secret",
       Responded resp) ∈ exchanges (take 3 sample_session) fresh
      ∧ token_response resp (PyStr "tok-2") ei.
Proof.
  split; [reflexivity|].
  apply (served_token_was_issued sample_settings sample_session 2
           (sample_env (set_external_api_username "alice" _runtime_config)
              1020 NoResponse)
           (PyStr "tok-2") "http://api.example" "alice" "secret").
  - repeat constructor; vm_compute; discriminate.
  - reflexivity.
  - reflexivity.
  - reflexivity.
Defined.

(** ** The endpoints *)

Lemma append_nil s : EmptyString +:+ s = s.
Proof. reflexivity. Qed.

Lemma append_cons a s t : String a s +:+ t = String a (s +:+ t).
Proof. reflexivity. Qed.

Lemma rstrip_by_cons P c s :
  P c = false → rstrip_by P (String c s) = String c (rstrip_by P s).
Proof. intros Hc. cbn. rewrite Hc. by destruct (rstrip_by P s). Qed.

(** What [rstrip_by] leaves does not end with a character it strips. *)
Lemma rstrip_by_last P s s' c :
  rstrip_by P s = s' +:+ String c EmptyString → P c = false.
Proof.
  revert s'. induction s as [|a s IH]; intros s' Heq; cbn in Heq.
  - destruct s'; [rewrite append_nil in Heq|rewrite append_cons in Heq]; done.
  - destruct (rstrip_by P s) as [|x r] eqn:Hr.
    + destruct (P a) eqn:Ha.
      { destruct s'; [rewrite append_nil in Heq|rewrite append_cons in Heq];
          done. }
      destruct s' as [|a' s''].
      * rewrite append_nil in Heq. by simplify_eq.
      * rewrite append_cons in Heq. simplify_eq.
        destruct s''; [rewrite append_nil in *|rewrite append_cons in *]; done.
    + destruct s' as [|a' s''].
      * rewrite append_nil in Heq. by simplify_eq.
      * rewrite append_cons in Heq. simplify_eq. by apply (IH s'').
Qed.

(** [rstrip_by] removes a suffix made of characters it strips. *)
Lemma rstrip_by_split P s :
  ∃ t, s = rstrip_by P s +:+ t ∧ all_chars P t = true.
Proof.
  induction s as [|a s (t & Hs & Ht)]; [by exists EmptyString|].
  cbn. destruct (rstrip_by P s) as [|x r] eqn:Hr.
  - destruct (P a) eqn:Ha.
    + exists (String a s). split; [done|]. cbn. rewrite Ha. cbn.
      rewrite append_nil in Hs. by rewrite Hs.
    + exists t. split; [|done]. rewrite append_cons. by rewrite <- Hs.
  - exists t. split; [|done]. rewrite append_cons. by rewrite <- Hs.
Qed.

Lemma has_prefix_split p s : has_prefix p s = true → ∃ r, s = p +:+ r.
Proof.
  revert s. induction p as [|a p IH]; intros s Hp; [by exists s|].
  destruct s as [|b s]; [done|]. cbn in Hp.
  apply andb_true_iff in Hp as [->%Ascii.eqb_eq Hp].
  destruct (IH s Hp) as [r ->]. by exists r.
Qed.

(** Stripping the slashes of an accepted URL keeps [http:] or [https:]
    at its head. *)
Lemma rstrip_keeps_scheme url :
  startswith url ["http://"; "https://"] = true →
  has_prefix "http:" (rstrip "/" url) = true
  ∨ has_prefix "https:" (rstrip "/" url) = true.
Proof.
  unfold startswith. cbn [existsb]. rewrite orb_false_r.
  intros [Hp|Hp]%orb_true_iff; apply has_prefix_split in Hp as [r ->].
  - left. unfold rstrip. rewrite !append_cons, append_nil.
    do 5 (rewrite rstrip_by_cons by reflexivity). reflexivity.
  - right. unfold rstrip. rewrite !append_cons, append_nil.
    do 6 (rewrite rstrip_by_cons by reflexivity). reflexivity.
Qed.

Lemma lstrip_by_head P s c s' : lstrip_by P s = String c s' → P c = false.
Proof.
  induction s as [|a s IH]; cbn; [done|].
  destruct (P a) eqn:Ha; [done|]. by intros [= -> ->].
Qed.

(** A stripped string is empty or begins and ends with a character that
    is not whitespace. *)
Lemma strip_ends s :
  strip s = EmptyString
  ∨ (∃ c s', strip s = String c s' ∧ isspace c = false)
    ∧ ∀ t c', strip s = t +:+ String c' EmptyString → isspace c' = false.
Proof.
  unfold strip. destruct (lstrip_by isspace s) as [|c s'] eqn:Hl; [by left|].
  right. pose proof (lstrip_by_head _ _ _ _ Hl) as Hc. split.
  - rewrite rstrip_by_cons by done. eauto.
  - intros t c'. apply rstrip_by_last.
Qed.

Lemma reachable_getters st cfg :
  reachable cfg →
  ∃ b u p, get_external_api_base_url st cfg = inr b
           ∧ get_external_api_username st cfg = inr u
           ∧ get_external_api_password st cfg = inr p.
Proof.
  intros Hr.
  destruct (reachable_read_credentials st cfg Hr) as (b & u & p & Hcred).
  exists b, u, p. by apply read_credentials_inv.
Qed.

Lemma getters_after_set_base_url st url cfg :
  get_external_api_base_url st (set_external_api_base_url url cfg) = inr url
  ∧ get_external_api_username st (set_external_api_base_url url cfg)
    = get_external_api_username st cfg
  ∧ get_external_api_password st (set_external_api_base_url url cfg)
    = get_external_api_password st cfg.
Proof.
  unfold get_external_api_base_url, get_external_api_username,
    get_external_api_password, set_external_api_base_url.
  by rewrite lookup_insert_eq, !lookup_insert_ne.
Qed.

Lemma getters_after_set_credentials st u p cfg :
  get_external_api_username st
    (set_external_api_password p (set_external_api_username u cfg)) = inr u
  ∧ get_external_api_password st
      (set_external_api_password p (set_external_api_username u cfg)) = inr p
  ∧ get_external_api_base_url st
      (set_external_api_password p (set_external_api_username u cfg))
    = get_external_api_base_url st cfg.
Proof.
  unfold get_external_api_base_url, get_external_api_username,
    get_external_api_password, set_external_api_username,
    set_external_api_password.
  rewrite lookup_insert_eq, !lookup_insert_ne by done.
  by rewrite lookup_insert_eq, !lookup_insert_ne.
Qed.

(** X9 - [POST /external-api-base-url] on a store the program can reach.
    The endpoint never raises.  It accepts the request exactly when the
    stripped URL starts with [http://] or [https://].  In both cases the
    URL it reports is the URL in effect afterwards, the username and the
    password in effect are untouched and the store stays reachable; a
    rejected request leaves the store exactly as it was. *)
Theorem base_url_endpoint_outcome st request cfg :
  reachable cfg →
  ∃ resp cfg',
    Endpoints.set_external_api_base_url st request cfg = (inr resp, cfg')
    ∧ reachable cfg'
    ∧ SetExternalApiBaseUrlResponse.success resp
      = startswith
          (strip (SetExternalApiBaseUrlRequest.external_api_base_url request))
          ["http://"; "https://"]
    ∧ get_external_api_base_url st cfg'
      = inr (SetExternalApiBaseUrlResponse.external_api_base_url resp)
    ∧ get_external_api_username st cfg' = get_external_api_username st cfg
    ∧ get_external_api_password st cfg' = get_external_api_password st cfg
    ∧ (SetExternalApiBaseUrlResponse.success resp = false → cfg' = cfg).
Proof.
  intros Hr. destruct (reachable_getters st cfg Hr) as (b & u & p & Hb & Hu & Hp).
  unfold Endpoints.set_external_api_base_url, Endpoints.base_url_rejected.
  rewrite Hb.
  set (url := strip (SetExternalApiBaseUrlRequest.external_api_base_url request)).
  case_bool_decide as Hempty.
  { do 2 eexists. split; [reflexivity|]. cbn. by rewrite Hempty. }
  destruct (startswith url _) eqn:Hscheme; cbn [negb].
  - do 2 eexists. split; [reflexivity|]. cbn.
    split; [by constructor|]. split; [done|].
    destruct (getters_after_set_base_url st (rstrip "/" url) cfg)
      as (-> & -> & ->).
    done.
  - do 2 eexists. split; [reflexivity|]. by cbn.
Qed.

Lemma base_url_endpoint_outcome_witness :
  ∃ resp cfg',
    Endpoints.set_external_api_base_url sample_settings
      {| SetExternalApiBaseUrlRequest.external_api_base_url :=
           "  https://other.example/api//  " |}
      _runtime_config = (inr resp, cfg')
    ∧ get_external_api_base_url sample_settings cfg'
      = inr (SetExternalApiBaseUrlResponse.external_api_base_url resp).
Proof.
  destruct (base_url_endpoint_outcome sample_settings
              {| SetExternalApiBaseUrlRequest.external_api_base_url :=
                   "  https://other.example/api//  " |}
              _runtime_config reach_init)
    as (resp & cfg' & Hrun & _ & _ & Hget & _).
  exists resp, cfg'. split; [exact Hrun | exact Hget].
Defined.

(** X10 - the URL that [POST /external-api-base-url] stores.  When the
    endpoint accepts a request, the URL it stores and reports is the
    stripped input without its trailing slashes: what is cut off after it
    consists of slashes only, it is not empty, it does not end with a
    slash, and it begins with [http:] or [https:] (the slashes of the
    scheme themselves are cut when nothing follows them). *)
Theorem base_url_endpoint_stores st request cfg resp cfg' :
  Endpoints.set_external_api_base_url st request cfg = (inr resp, cfg') →
  SetExternalApiBaseUrlResponse.success resp = true →
  let input := SetExternalApiBaseUrlRequest.external_api_base_url request in
  let url := SetExternalApiBaseUrlResponse.external_api_base_url resp in
  cfg' = set_external_api_base_url url cfg
  ∧ url = rstrip "/" (strip input)
  ∧ (∃ t, strip input = url +:+ t ∧ all_chars (contains "/") t = true)
  ∧ url ≠ EmptyString
  ∧ (∀ t, url ≠ t +:+ "/")
  ∧ (has_prefix "http:" url = true ∨ has_prefix "https:" url = true).
Proof.
  unfold Endpoints.set_external_api_base_url, Endpoints.base_url_rejected.
  set (stripped := strip (SetExternalApiBaseUrlRequest.external_api_base_url
                            request)).
  intros Hrun Hok.
  case_bool_decide as Hempty.
  { destruct (get_external_api_base_url st cfg); simplify_eq; done. }
  destruct (startswith stripped _) eqn:Hscheme; cbn [negb] in Hrun.
  2: { destruct (get_external_api_base_url st cfg); simplify_eq; done. }
  simplify_eq. cbn.
  pose proof (rstrip_keeps_scheme stripped Hscheme) as Hhead.
  split; [done|]. split; [done|].
  split; [apply rstrip_by_split|]. split; [|split; [|done]].
  - intros Hnil. rewrite Hnil in Hhead. by destruct Hhead.
  - intros t Heq. by apply rstrip_by_last in Heq.
Qed.

(** The input [http://] with blanks around it: the endpoint accepts it
    and the URL in effect is [http:]. *)
Lemma base_url_endpoint_stores_witness :
  get_external_api_base_url sample_settings
    (snd (Endpoints.set_external_api_base_url sample_settings
            {| SetExternalApiBaseUrlRequest.external_api_base_url :=
                 " http:// " |}
            _runtime_config))
  = inr "http:".
Proof.
  destruct (Endpoints.set_external_api_base_url sample_settings
              {| SetExternalApiBaseUrlRequest.external_api_base_url :=
                   " http:// " |}
              _runtime_config) as [[e|resp] cfg'] eqn:Hrun;
    [vm_compute in Hrun; discriminate Hrun|].
  destruct (base_url_endpoint_stores sample_settings _ _ resp cfg' Hrun)
    as (-> & Hurl & _).
  - vm_compute in Hrun. by simplify_eq.
  - cbn [snd]. rewrite Hurl. reflexivity.
Defined.

(** X11 - [POST /external-api-credentials] on a store the program can
    reach.  The endpoint never raises.  It accepts the request exactly
    when the stripped username and the password, as given, are both not
    empty; both checks come before both writes, so a rejected request
    leaves the store exactly as it was.  An accepted request puts the
    stripped username and the unchanged password in effect.  In both
    cases the username reported is the username in effect afterwards, the
    base URL in effect is untouched and the store stays reachable. *)
Theorem credentials_endpoint_outcome st request cfg :
  reachable cfg →
  let username := strip (SetExternalApiCredentialsRequest.username request) in
  let password := SetExternalApiCredentialsRequest.password request in
  ∃ resp cfg',
    Endpoints.set_external_api_credentials st request cfg = (inr resp, cfg')
    ∧ reachable cfg'
    ∧ SetExternalApiCredentialsResponse.success resp
      = negb (bool_decide (username = EmptyString))
        && negb (bool_decide (password = EmptyString))
    ∧ get_external_api_username st cfg'
      = inr (SetExternalApiCredentialsResponse.username resp)
    ∧ get_external_api_base_url st cfg' = get_external_api_base_url st cfg
    ∧ (SetExternalApiCredentialsResponse.success resp = false → cfg' = cfg)
    ∧ (SetExternalApiCredentialsResponse.success resp = true →
         get_external_api_username st cfg' = inr username
         ∧ get_external_api_password st cfg' = inr password).
Proof.
  intros Hr username password.
  destruct (reachable_getters st cfg Hr) as (b & u & p & Hb & Hu & Hp).
  unfold Endpoints.set_external_api_credentials, Endpoints.credentials_rejected.
  fold username password. rewrite Hu.
  case_bool_decide as Huser; cbn [negb andb].
  { do 2 eexists. split; [reflexivity|]. by cbn. }
  case_bool_decide as Hpass; cbn [negb andb].
  { do 2 eexists. split; [reflexivity|]. by cbn. }
  do 2 eexists. split; [reflexivity|]. cbn.
  split; [by do 2 constructor|]. split; [done|].
  destruct (getters_after_set_credentials st username password cfg)
    as (-> & -> & ->).
  done.
Qed.

(** A username with blanks around it and a password that is one blank. *)
Lemma credentials_endpoint_outcome_witness :
  ∃ resp cfg',
    Endpoints.set_external_api_credentials sample_settings
      {| SetExternalApiCredentialsRequest.username := " alice ";
         SetExternalApiCredentialsRequest.password := " " |}
      _runtime_config = (inr resp, cfg')
    ∧ get_external_api_username sample_settings cfg' = inr "alice"
    ∧ get_external_api_password sample_settings cfg' = inr " ".
Proof.
  destruct (credentials_endpoint_outcome sample_settings
              {| SetExternalApiCredentialsRequest.username := " alice ";
                 SetExternalApiCredentialsRequest.password := " " |}
              _runtime_config reach_init)
    as (resp & cfg' & Hrun & _ & Hok & _ & _ & _ & Hset).
  exists resp, cfg'. split; [exact Hrun|]. apply Hset. exact Hok.
Defined.

(** X12 - new credentials reach the next login.  The instance holds a
    token issued for the triple of the store; the credentials endpoint
    then accepts a request whose stripped username or password differs
    from that triple.  The next [get_access_token], whatever the expiry
    of the cached token, sends exactly one login request, for the old
    base URL with the stripped username and the password of the request,
    and returns the token of a well-formed answer to it. *)
Theorem credentials_endpoint_then_login
    st request cfg resp cfg' b0 u0 p0 w now api now' :
  Endpoints.set_external_api_credentials st request cfg = (inr resp, cfg') →
  SetExternalApiCredentialsResponse.success resp = true →
  read_credentials st cfg = inr (b0, u0, p0) →
  issued_for (self w) = Some (b0, u0, p0) →
  let u := strip (SetExternalApiCredentialsRequest.username request) in
  let p := SetExternalApiCredentialsRequest.password request in
  (u0, p0) ≠ (u, p) →
  let env := {| settings := st; config := cfg'; clock_at_check := now;
                external_api := api; clock_at_store := now' |} in
  read_credentials st cfg' = inr (b0, u, p)
  ∧ ∃ r w',
      get_access_token env w = (r, w')
      ∧ sent w' = (sent w ++ [login_request st b0 u p])%list
      ∧ (∀ resp' tok ei t,
           api (login_request st b0 u p) = Responded resp' →
           token_response resp' tok ei → truthy tok = true →
           float_add now' (default (PyNum 3600) ei) = inr t →
           r = inr tok ∧ self w' = stored tok t b0 u p).
Proof.
  intros Hrun Hok Hcred Hfor u p Hne env.
  assert (cfg' = set_value Password p (set_value Username u cfg)) as ->.
  { revert Hrun.
    unfold Endpoints.set_external_api_credentials,
      Endpoints.credentials_rejected.
    fold u p.
    repeat case_bool_decide;
      destruct (get_external_api_username st cfg); intros; simplify_eq;
      done. }
  assert (read_credentials st (set_value Password p (set_value Username u cfg))
          = inr (b0, u, p)) as Hcred'.
  { apply (read_credentials_set st _ Password p (b0, u, p0)).
    apply (read_credentials_set st _ Username u (b0, u0, p0)). done. }
  split; [done|].
  assert ((b0, u0, p0) ≠ (b0, u, p)) as Hdiff by congruence.
  assert (_is_token_valid (clock_at_check env) (invalidated b0 u p (self w))
          = false) as Hinv.
  { by rewrite (invalidated_changed _ _ _ _ _ _ _ Hfor Hdiff). }
  destruct (refresh_outcome env w b0 u p Hcred' Hinv) as (r & c' & Hrun' & _).
  do 2 eexists. split; [exact Hrun'|]. split; [done|].
  intros resp' tok ei t Hapi Hresp Htruthy Hadd.
  rewrite (login_succeeds env w b0 u p resp' tok ei t) in Hrun' by done.
  by simplify_eq.
Qed.

(** The token of [logged_in] was issued for [admin]; the endpoint sets
    [alice] with a new password, and the call at clock 1010 logs in as
    [alice]. *)
Lemma credentials_endpoint_then_login_witness :
  ∃ r w',
    get_access_token
      (sample_env
         (snd (Endpoints.set_external_api_credentials sample_settings
                 {| SetExternalApiCredentialsRequest.username := " alice ";
                    SetExternalApiCredentialsRequest.password := "pw" |}
                 _runtime_config))
         1010 (Responded (ok_response (token_only "tok-2"))))
      logged_in = (r, w')
    ∧ sent w'
      = [login_request sample_settings "http://api.example" "admin" "secret";
         login_request sample_settings "http://api.example" "alice" "pw"].
Proof.
  destruct (Endpoints.set_external_api_credentials sample_settings
              {| SetExternalApiCredentialsRequest.username := " alice ";
                 SetExternalApiCredentialsRequest.password := "pw" |}
              _runtime_config) as [[e|resp] cfg'] eqn:Hrun;
    [vm_compute in Hrun; discriminate Hrun|].
  destruct (credentials_endpoint_then_login sample_settings _ _ resp cfg'
              "http://api.example" "admin" "secret" logged_in 1010
              (λ _, Responded (ok_response (token_only "tok-2"))) 1010 Hrun)
    as (_ & r & w' & Hrun' & Hsent & _).
  - vm_compute in Hrun. by simplify_eq.
  - reflexivity.
  - reflexivity.
  - vm_compute. discriminate.
  - exists r, w'. split; [exact Hrun' | exact Hsent].
Defined.

Lemma base_url_endpoint_getters st request cfg :
  reachable cfg →
  ∃ resp cfg',
    Endpoints.set_external_api_base_url st request cfg = (inr resp, cfg')
    ∧ get_external_api_base_url st cfg'
      = inr (SetExternalApiBaseUrlResponse.external_api_base_url resp)
    ∧ get_external_api_username st cfg' = get_external_api_username st cfg.
Proof.
  intros Hr. destruct (reachable_getters st cfg Hr) as (b & u & p & Hb & Hu & Hp).
  unfold Endpoints.set_external_api_base_url, Endpoints.base_url_rejected.
  rewrite Hb.
  destruct (getters_after_set_base_url st
              (rstrip "/" (strip (SetExternalApiBaseUrlRequest.external_api_base_url
                                    request))) cfg) as (Hb1 & Hu1 & _).
  case_bool_decide; [by eauto|].
  destruct (negb _); by eauto.
Qed.

Lemma credentials_endpoint_getters st request cfg :
  reachable cfg →
  ∃ resp cfg',
    Endpoints.set_external_api_credentials st request cfg = (inr resp, cfg')
    ∧ get_external_api_username st cfg'
      = inr (SetExternalApiCredentialsResponse.username resp)
    ∧ get_external_api_base_url st cfg' = get_external_api_base_url st cfg.
Proof.
  intros Hr. destruct (reachable_getters st cfg Hr) as (b & u & p & Hb & Hu & Hp).
  unfold Endpoints.set_external_api_credentials, Endpoints.credentials_rejected.
  rewrite Hu.
  destruct (getters_after_set_credentials st
              (strip (SetExternalApiCredentialsRequest.username request))
              (SetExternalApiCredentialsRequest.password request) cfg)
    as (Hu2 & _ & Hb2).
  repeat case_bool_decide; by eauto.
Qed.

(** X13 - [GET /config] shows what the POST endpoints report.  On a store
    the program can reach, [get_settings_config] never raises and shows
    the base URL and the username in effect.  After any request to
    [POST /external-api-base-url], accepted or not, it shows the URL of
    that response, with the username and the evaluation section as
    before; after any request to [POST /external-api-credentials] it
    shows the username of that response, with the URL as before. *)
Theorem settings_config_after_updates st display cfg url_request cred_request :
  reachable cfg →
  ∃ conf url_resp cfg1 conf1 cred_resp cfg2 conf2,
    Endpoints.get_settings_config st display cfg = inr conf
    ∧ get_external_api_base_url st cfg
      = inr (SyncConfigResponse.external_api_base_url
               (SettingsConfigResponse.sync conf))
    ∧ get_external_api_username st cfg
      = inr (SyncConfigResponse.external_api_username
               (SettingsConfigResponse.sync conf))
    ∧ Endpoints.set_external_api_base_url st url_request cfg
      = (inr url_resp, cfg1)
    ∧ Endpoints.get_settings_config st display cfg1 = inr conf1
    ∧ SyncConfigResponse.external_api_base_url (SettingsConfigResponse.sync conf1)
      = SetExternalApiBaseUrlResponse.external_api_base_url url_resp
    ∧ SyncConfigResponse.external_api_username (SettingsConfigResponse.sync conf1)
      = SyncConfigResponse.external_api_username (SettingsConfigResponse.sync conf)
    ∧ SettingsConfigResponse.evaluation conf1 = SettingsConfigResponse.evaluation conf
    ∧ Endpoints.set_external_api_credentials st cred_request cfg
      = (inr cred_resp, cfg2)
    ∧ Endpoints.get_settings_config st display cfg2 = inr conf2
    ∧ SyncConfigResponse.external_api_username (SettingsConfigResponse.sync conf2)
      = SetExternalApiCredentialsResponse.username cred_resp
    ∧ SyncConfigResponse.external_api_base_url (SettingsConfigResponse.sync conf2)
      = SyncConfigResponse.external_api_base_url (SettingsConfigResponse.sync conf).
Proof.
  intros Hr.
  destruct (reachable_getters st cfg Hr) as (b & u & p & Hb & Hu & Hp).
  destruct (base_url_endpoint_getters st url_request cfg Hr)
    as (url_resp & cfg1 & Hrun1 & Hb1 & Hu1).
  destruct (credentials_endpoint_getters st cred_request cfg Hr)
    as (cred_resp & cfg2 & Hrun2 & Hu2 & Hb2).
  eexists. exists url_resp, cfg1. eexists. exists cred_resp, cfg2. eexists.
  unfold Endpoints.get_settings_config.
  rewrite Hb1, Hu1, Hu2, Hb2, Hb, Hu.
  split; [reflexivity|]. split; [reflexivity|]. split; [reflexivity|].
  split; [exact Hrun1|]. split; [reflexivity|]. split; [reflexivity|].
  split; [reflexivity|]. split; [reflexivity|].
  split; [exact Hrun2|]. split; [reflexivity|]. by split.
Qed.

Lemma settings_config_after_updates_witness :
  ∃ conf,
    Endpoints.get_settings_config sample_settings sample_display _runtime_config
    = inr conf
    ∧ get_external_api_base_url sample_settings _runtime_config
      = inr (SyncConfigResponse.external_api_base_url
               (SettingsConfigResponse.sync conf)).
Proof.
  destruct (settings_config_after_updates sample_settings sample_display
              _runtime_config
              {| SetExternalApiBaseUrlRequest.external_api_base_url :=
                   "http://other.example" |}
              {| SetExternalApiCredentialsRequest.username := "alice";
                 SetExternalApiCredentialsRequest.password := "pw" |}
              reach_init)
    as (conf & _ & _ & _ & _ & _ & _ & Hconf & Hurl & _).
  exists conf. split; [exact Hconf | exact Hurl].
Defined.

(** X14 - a new base URL reaches the next login.  The instance holds a
    token issued for the triple of the store; the base URL endpoint then
    accepts a request whose stored URL differs from the base URL of that
    triple.  The next [get_access_token], whatever the expiry of the
    cached token, sends exactly one login request, to the stored URL (the
    stripped input without trailing slashes) followed by the login path,
    with the username and password as before, and returns the token of a
    well-formed answer to it. *)
Theorem base_url_endpoint_then_login
    st request cfg resp cfg' b0 u0 p0 w now api now' :
  Endpoints.set_external_api_base_url st request cfg = (inr resp, cfg') →
  SetExternalApiBaseUrlResponse.success resp = true →
  read_credentials st cfg = inr (b0, u0, p0) →
  issued_for (self w) = Some (b0, u0, p0) →
  let b := rstrip "/" (strip (SetExternalApiBaseUrlRequest.external_api_base_url
                                request)) in
  b0 ≠ b →
  let env := {| settings := st; config := cfg'; clock_at_check := now;
                external_api := api; clock_at_store := now' |} in
  read_credentials st cfg' = inr (b, u0, p0)
  ∧ url (login_request st b u0 p0) = b +:+ EXTERNAL_API_LOGIN_PATH st
  ∧ ∃ r w',
      get_access_token env w = (r, w')
      ∧ sent w' = (sent w ++ [login_request st b u0 p0])%list
      ∧ (∀ resp' tok ei t,
           api (login_request st b u0 p0) = Responded resp' →
           token_response resp' tok ei → truthy tok = true →
           float_add now' (default (PyNum 3600) ei) = inr t →
           r = inr tok ∧ self w' = stored tok t b u0 p0).
Proof.
  intros Hrun Hok Hcred Hfor b Hne env.
  assert (cfg' = set_value BaseUrl b cfg) as ->.
  { revert Hrun Hok.
    unfold Endpoints.set_external_api_base_url, Endpoints.base_url_rejected.
    fold b. case_bool_decide.
    { destruct (get_external_api_base_url st cfg); intros; simplify_eq; done. }
    destruct (negb _).
    { destruct (get_external_api_base_url st cfg); intros; simplify_eq; done. }
    by intros [= <- <-]. }
  pose proof (read_credentials_set st cfg BaseUrl b (b0, u0, p0) Hcred) as Hcred'.
  cbn [with_value] in Hcred'.
  split; [done|]. split; [done|].
  assert ((b0, u0, p0) ≠ (b, u0, p0)) as Hdiff by congruence.
  assert (_is_token_valid (clock_at_check env) (invalidated b u0 p0 (self w))
          = false) as Hinv.
  { by rewrite (invalidated_changed _ _ _ _ _ _ _ Hfor Hdiff). }
  destruct (refresh_outcome env w b u0 p0 Hcred' Hinv) as (r & c' & Hrun' & _).
  do 2 eexists. split; [exact Hrun'|]. split; [done|].
  intros resp' tok ei t Hapi Hresp Htruthy Hadd.
  rewrite (login_succeeds env w b u0 p0 resp' tok ei t) in Hrun' by done.
  by simplify_eq.
Qed.

(** The token of [logged_in] was issued for [http://api.example]; the
    endpoint stores [https://other.example], and the call at clock 1010
    logs in there. *)
Lemma base_url_endpoint_then_login_witness :
  ∃ r w',
    get_access_token
      (sample_env
         (snd (Endpoints.set_external_api_base_url sample_settings
                 {| SetExternalApiBaseUrlRequest.external_api_base_url :=
                      " https://other.example/ " |}
                 _runtime_config))
         1010 (Responded (ok_response (token_only "tok-2"))))
      logged_in = (r, w')
    ∧ url <$> sent w'
      = ["http://api.example/api/auth/login";
         "https://other.example/api/auth/login"].
Proof.
  destruct (Endpoints.set_external_api_base_url sample_settings
              {| SetExternalApiBaseUrlRequest.external_api_base_url :=
                   " https://other.example/ " |}
              _runtime_config) as [[e|resp] cfg'] eqn:Hrun;
    [vm_compute in Hrun; discriminate Hrun|].
  destruct (base_url_endpoint_then_login sample_settings _ _ resp cfg'
              "http://api.example" "admin" "secret" logged_in 1010
              (λ _, Responded (ok_response (token_only "tok-2"))) 1010 Hrun)
    as (_ & _ & r & w' & Hrun' & Hsent & _).
  - vm_compute in Hrun. by simplify_eq.
  - reflexivity.
  - reflexivity.
  - vm_compute. discriminate.
  - exists r, w'. split; [exact Hrun'|]. rewrite Hsent. reflexivity.
Defined.
